(** * The batch generation loop of the MLC serving engine front end

    A shallow embedding of [Engine.generate] and of its batch-scoped
    [request_stream_callback] (python/mlc_chat/serve/engine.py), together
    with the two per-request helpers the callback drives (the incremental
    detokenizer [TextStreamer] and the stop-string matcher
    [StopStringHandler]) and the properties of the driving protocol. *)

From Stdlib Require Import ZArith Ascii String Lia Bool DecimalString
  DecimalNat.
From stdpp Require Import base list.

Local Open Scope Z_scope.

(** A Python [str] is a sequence of Unicode code points; offsets into it
    are list positions, [T[0:k]] is [take k T]. *)
Abbreviation text := (list N).

(** The code point of an ASCII character, and the text of an ASCII
    literal. *)
Definition chr (a : ascii) : N := N_of_ascii a.

Definition txt (s : string) : text := map chr (list_ascii_of_string s).

(** ** Python values and builtins used by [generate] *)

(** The dynamically typed argument [prompts]. *)
#[warnings="-register-all"]
Inductive PyVal : Type :=
| VStr (s : text)
| VInt (z : Z)
| VList (l : list PyVal)
| VNone.

Definition isinstance_str (v : PyVal) : bool :=
  match v with VStr _ => true | _ => false end.

Definition isinstance_list (v : PyVal) : bool :=
  match v with VList _ => true | _ => false end.

Definition isinstance_int (v : PyVal) : bool :=
  match v with VInt _ => true | _ => false end.

Definition elements (v : PyVal) : list PyVal :=
  match v with VList l => l | _ => [] end.

(** Faults (Python exceptions) that can leave [generate]. *)
Inductive Fault : Type :=
| AssertionError (msg : string)
| ValueError
| IndexError
| StreamClosed
| EngineError (code : nat).

(** [l[z]] for a Python list: indices [-len l .. -1] count from the end,
    anything outside [-len l .. len l - 1] raises [IndexError].  The result
    is the position the subscript denotes. *)
Definition py_index (len : nat) (z : Z) : option nat :=
  if (0 <=? z) && (z <? Z.of_nat len) then Some (Z.to_nat z)
  else if (- Z.of_nat len <=? z) && (z <? 0) then Some (Z.to_nat (Z.of_nat len + z))
  else None.

(** The interpreter's limit on the number of digits in a conversion
    between [int] and [str] ([sys.int_info.default_max_str_digits]); a
    conversion beyond it raises [ValueError]. *)
Definition int_max_str_digits : Z := 4300.

(** The code points from U+007F on that [str.isspace] accepts. *)
Definition unicode_spaces : list N :=
  [0x85; 0xA0; 0x1680; 0x2000; 0x2001; 0x2002; 0x2003; 0x2004; 0x2005;
   0x2006; 0x2007; 0x2008; 0x2009; 0x200A; 0x2028; 0x2029; 0x202F; 0x205F;
   0x3000]%N.

(** The digit zero of every run of ten decimal digits (general category
    Nd) beyond ASCII, Unicode 14.0. *)
Definition decimal_zeros : list N :=
  [0x660; 0x6F0; 0x7C0; 0x966; 0x9E6; 0xA66; 0xAE6; 0xB66; 0xBE6; 0xC66;
   0xCE6; 0xD66; 0xDE6; 0xE50; 0xED0; 0xF20; 0x1040; 0x1090; 0x17E0;
   0x1810; 0x1946; 0x19D0; 0x1A80; 0x1A90; 0x1B50; 0x1BB0; 0x1C40; 0x1C50;
   0xA620; 0xA8D0; 0xA900; 0xA9D0; 0xA9F0; 0xAA50; 0xABF0; 0xFF10; 0x104A0;
   0x10D30; 0x11066; 0x110F0; 0x11136; 0x111D0; 0x112F0; 0x11450; 0x114D0;
   0x11650; 0x116C0; 0x11730; 0x118E0; 0x11950; 0x11C50; 0x11D50; 0x11DA0;
   0x16A60; 0x16AC0; 0x16B50; 0x1D7CE; 0x1D7D8; 0x1D7E2; 0x1D7EC; 0x1D7F6;
   0x1E140; 0x1E2F0; 0x1E950; 0x1FBF0]%N.

(** The decimal value of a code point beyond ASCII, if it is a decimal
    digit. *)
Definition to_decimal (c : N) : option N :=
  (fun z => c - z)%N <$>
  find (fun z => (z <=? c) && (c <? z + 10))%N decimal_zeros.

(** What [int] makes of one character before it parses: a code point
    below U+007F is kept, white space beyond becomes a blank, a decimal
    digit beyond becomes the ASCII digit of the same value, and nothing
    else is accepted. *)
Definition ascii_char (c : N) : option N :=
  if (c <? 127)%N then Some c
  else if existsb (N.eqb c) unicode_spaces then Some (chr " ")
  else (fun d => chr "0" + d)%N <$> to_decimal c.

Definition ascii_form (s : text) : option text := mapM ascii_char s.

(** The white space [int] strips from both ends of the ASCII form:
    U+0009 to U+000D and the blank. *)
Definition is_space (c : N) : bool :=
  ((9 <=? c) && (c <=? 13) || (c =? 32))%N.

Fixpoint lstrip (s : text) : text :=
  match s with
  | c :: s' => if is_space c then lstrip s' else s
  | [] => []
  end.

Definition strip (s : text) : text := rev (lstrip (rev (lstrip s))).

Definition digit_val (c : N) : option Z :=
  if ((48 <=? c) && (c <=? 57))%N then Some (Z.of_N c - 48) else None.

Fixpoint parse_digits (acc : Z) (after_digit : bool) (s : text) : option Z :=
  match s with
  | [] => if after_digit then Some acc else None
  | c :: s' =>
      match digit_val c with
      | Some d => parse_digits (10 * acc + d) true s'
      | None =>
          if N.eqb c (chr "_") && after_digit
          then parse_digits acc false s'
          else None
      end
  end.

Definition digit_count (s : text) : Z :=
  Z.of_nat (length (filter (fun c => is_Some (digit_val c)) s)).

(** The digits after the sign: at most [int_max_str_digits] of them,
    separated by single underscores at most. *)
Definition read_digits (s : text) : option Z :=
  if int_max_str_digits <? digit_count s then None
  else parse_digits 0 false s.

(** [int(s)] for a [str]: the ASCII form of the text, with the white
    space at both ends stripped, is one optional sign followed by decimal
    digits.  [None] stands for [ValueError], which anything else
    raises. *)
Definition py_int (s : text) : option Z :=
  a ← ascii_form s;
  match strip a with
  | c :: r =>
      if N.eqb c (chr "-") then Z.opp <$> read_digits r
      else if N.eqb c (chr "+") then read_digits r
      else read_digits (c :: r)
  | [] => None
  end.

(** The digits of [str(n)] for a non-negative index. *)
Definition py_str (n : nat) : text :=
  txt (NilEmpty.string_of_uint (Nat.to_uint n)).

(** [str(n)] raises [ValueError] when [n] has more digits than the
    interpreter's limit. *)
Definition str_raises (n : nat) : bool :=
  int_max_str_digits <? Z.of_nat (length (py_str n)).
Arguments str_raises : simpl never.

(** ** Requests and stream events (request.py, config.py, data.py) *)

Record GenerationConfig : Type := {
  stop_strs : list text;
  sampling : nat   (* the sampling parameters, opaque to this layer *)
}.

Inductive Data : Type :=
| TextData (s : text)
| TokenData (v : PyVal).

Record Request : Type := {
  request_id : text;
  inputs : Data;
  generation_config : GenerationConfig
}.

(** [RequestStreamOutput.unpack()] yields these three components. *)
Record RequestStreamOutput : Type := {
  rso_request_id : text;
  rso_delta_tokens : list Z;
  rso_finish_reason : option string
}.

(** ** Text search used by the stop-string matcher *)

Fixpoint prefixb (p t : text) : bool :=
  match p, t with
  | [], _ => true
  | a :: p', b :: t' => N.eqb a b && prefixb p' t'
  | _ :: _, [] => false
  end.

(** [p] is a prefix of [s] and shorter than [s]. *)
Definition proper_prefixb (p s : text) : bool :=
  prefixb p s && (length p <? length s)%nat.

(** Some stop string starts at the head of [t]. *)
Definition stop_here (S : list text) (t : text) : bool :=
  existsb (fun s => prefixb s t) S.

(** Start offset of the first position of [t] at which some stop string
    occurs in full. *)
Fixpoint first_stop (S : list text) (t : text) : option nat :=
  if stop_here S t then Some 0%nat
  else match t with
       | [] => None
       | _ :: t' => Datatypes.S <$> first_stop S t'
       end.

(** Start offset of the longest suffix of [t] that is a proper prefix of
    some stop string ([length t] when only the empty suffix qualifies or
    nothing does). *)
Fixpoint hold_from (S : list text) (t : text) : nat :=
  if existsb (proper_prefixb t) S then 0%nat
  else match t with
       | [] => 0%nat
       | _ :: t' => Datatypes.S (hold_from S t')
       end.

(** ** StopStringMatcher *)

(** Modelled from the spec: the class [StopStringHandler] of
    python/mlc_chat/streamer.py is not part of the sources at hand; this is
    the stop-string matcher of the design, section 4.2: a stop-string set,
    the withheld suffix of the text seen so far, a one-way [triggered]
    flag, and (section 7) a fault when [finish] is invoked twice. *)
Record StopStringHandler : Type := {
  sh_stop_strs : list text;
  sh_buffer : text;
  stop_triggered : bool;
  sh_finished : bool
}.

Definition new_stop_handler (S : list text) : StopStringHandler :=
  {| sh_stop_strs := S; sh_buffer := []; stop_triggered := false;
     sh_finished := false |}.

(** Modelled from the spec: [StopStringHandler.put], section 4.2.  The new
    text is appended to the buffer; a completed stop string triggers the
    matcher, which returns the text before the first occurrence and
    discards the rest for good; otherwise the longest suffix that is a
    proper prefix of a stop string is withheld and the rest returned.
    Once triggered every call returns the empty text. *)
Definition sh_put (h : StopStringHandler) (delta : text)
  : text * StopStringHandler :=
  if stop_triggered h then ([], h)
  else
    let buf := sh_buffer h ++ delta in
    match first_stop (sh_stop_strs h) buf with
    | Some k =>
        (take k buf,
         {| sh_stop_strs := sh_stop_strs h; sh_buffer := [];
            stop_triggered := true; sh_finished := sh_finished h |})
    | None =>
        let j := hold_from (sh_stop_strs h) buf in
        (take j buf,
         {| sh_stop_strs := sh_stop_strs h; sh_buffer := drop j buf;
            stop_triggered := false; sh_finished := sh_finished h |})
    end.

(** Modelled from the spec: [StopStringHandler.finish], sections 4.2 and 7.
    Flushes the withheld buffer when the matcher has not triggered, returns
    the empty text when it has; a second call is a fault. *)
Definition sh_finish (h : StopStringHandler)
  : Fault + (text * StopStringHandler) :=
  if sh_finished h then inl StreamClosed
  else
    inr (if stop_triggered h then [] else sh_buffer h,
         {| sh_stop_strs := sh_stop_strs h; sh_buffer := [];
            stop_triggered := stop_triggered h; sh_finished := true |}).

(** ** The engine's callback slot and the interaction trace *)

(** What the engine's single callback slot can hold: nothing, a callback
    installed by the host application, or the closure
    [request_stream_callback] created by the running [generate] call. *)
Inductive Callback : Type :=
| NoCallback
| HostCallback (id : nat)
| GenerateCallback.

(** Calls across the engine boundary, in the order they happen: the four
    FFI entry points [generate] uses, and the engine's synchronous
    invocations of the installed callback. *)
Inductive Interaction : Type :=
| GetCallback
| SetCallback (cb : Callback)
| AddRequest (r : Request)
| Step
| Deliver (delta_outputs : list RequestStreamOutput).

(** Result of running a piece of the program: a value, a fault that
    propagates to the caller, or a driving loop still running when the
    step budget of the model is used up. *)
Inductive Outcome (A : Type) : Type :=
| Returned (a : A)
| Raised (f : Fault)
| OutOfFuel.
Arguments Returned {A} a.
Arguments Raised {A} f.
Arguments OutOfFuel {A}.

(** [generation_config] is one config or a list of configs. *)
Inductive ConfigArg : Type :=
| OneConfig (c : GenerationConfig)
| ConfigList (l : list GenerationConfig).

Definition stop_reason : string := "stop".

(** The engine instance: its callback slot and its hidden state, together
    with the record of what has crossed the boundary so far. *)
Record World (EState : Type) : Type := {
  callback : Callback;
  internal : EState;
  trace : list Interaction
}.
Arguments callback {EState} w.
Arguments internal {EState} w.
Arguments trace {EState} w.

(** ** A concrete tokenizer and a scripted engine

    Used to run the model: one token per character, a detokenizer that
    withholds the text of the last token, and an engine that replays a
    list of steps. *)

Definition char_decode (l : list Z) : text := map Z.to_N l.

Definition hold_last (h : list Z) : nat := pred (length h).

Definition toks (s : string) : list Z := map Z.of_N (txt s).

Definition Script : Type :=
  list (list (list RequestStreamOutput) * option nat).

Definition script_add_request (r : Request) (s : Script)
  : Script * option nat := (s, None).

Definition script_step (s : Script)
  : Script * list (list RequestStreamOutput) * option nat :=
  match s with
  | [] => ([], [], None)
  | (ds, err) :: s' => (s', ds, err)
  end.

Definition event (id tokens : string) (reason : option string)
  : RequestStreamOutput :=
  {| rso_request_id := txt id; rso_delta_tokens := toks tokens;
     rso_finish_reason := reason |}.

Definition stops (l : list string) : GenerationConfig :=
  {| stop_strs := map txt l; sampling := 0 |}.

(** An engine about to replay [s], with a host callback installed. *)
Definition host_world (s : Script) : World Script :=
  {| callback := HostCallback 7; internal := s; trace := [] |}.

(** The example of the design: "Hello!!!" and "World." with stop string
    "!", delivered over two steps. *)
Definition hello_script : Script :=
  [ ([[event "0" "Hel" None; event "1" "World." (Some "length"%string)]],
     None);
    ([[event "0" "lo!!!" (Some "eos"%string)]], None) ].

Definition hello_prompts : PyVal :=
  VList [VStr (txt "Hello"); VStr (txt "World")].

Definition hello_events : list RequestStreamOutput :=
  [event "0" "Hel" None; event "1" "World." (Some "length"%string);
   event "0" "lo!!!" (Some "eos"%string)].

(** An engine whose first step fails. *)
Definition failing_script : Script := [([], Some 3%nat)].

(** An engine that goes on sending text for a request after its stop
    string has been seen. *)
Definition talkative_events : list RequestStreamOutput :=
  [event "0" "a!x" None; event "0" "y" None].

Definition talkative_script : Script := [([talkative_events], None)].

(** Two stop strings that overlap in the text "abcd". *)
Definition overlap_stops : GenerationConfig := stops ["abcd"; "bc"]%string.

Definition overlap_script : Script :=
  [([[event "0" "abcd" (Some "length"%string)]], None)].

(** An engine that addresses the only request as "-1". *)
Definition negative_events : list RequestStreamOutput :=
  [event "-1" "ab" None].

(** A request without stop strings, finished by the engine. *)
Definition plain_script : Script :=
  [ ([[event "0" "ab" None]], None);
    ([[event "0" "c" (Some "length"%string)]], None) ].

(** ** The arguments the engine is constructed with (lines 64-119) *)

(** Exceptions of the model lookup; [_process_model_args] catches the
    first kind around the library lookup only. *)
Inductive PyError : Type :=
| FileNotFoundError
| OtherError (code : nat).

(** [tvm.runtime.Device], as far as it is read here. *)
Record Device : Type := {
  device_type : Z;
  device_id : Z
}.

(** [ModelInfo] once [__post_init__] has put a [Device] into [device]. *)
Record ModelInfo : Type := {
  model : string;
  model_lib_path : string;
  device : Device
}.

(** The two fields of the chat config that are read here. *)
Record ChatConfig : Type := {
  context_window_size : option Z;
  conv_template : option string
}.

(** An element of the heterogeneous list handed to the engine. *)
Inductive Arg : Type :=
| ArgStr (s : string)
| ArgInt (z : Z).

(** [models] is one [ModelInfo] or a list of them. *)
Inductive ModelsArg : Type :=
| OneModel (m : ModelInfo)
| ModelList (l : list ModelInfo).

(** The three [nonlocal] variables of [_convert_model_info]. *)
Record ArgsState : Type := {
  max_single_sequence_length : Z;
  tokenizer_path : option string;
  conv_template_name : option string
}.

Section ModelArgs.

(** The helpers of chat_module.py and interface/jit.py, which are not part
    of the sources at hand: each returns its value or raises. *)
Variable _get_model_path : string -> PyError + (string * string).
Variable _get_chat_config : string -> PyError + ChatConfig.
Variable _get_lib_module_path :
  string -> string -> ChatConfig -> string -> string -> string ->
  PyError + string.
Variable MASK2STR : Z -> string.
Variable jit : string -> ChatConfig -> Device -> PyError + string.

(** Lines 88-108: look the model library up, compile it when the lookup
    raises [FileNotFoundError]. *)
Definition resolve_model_lib (m : ModelInfo)
  (model_path config_file_path : string) (chat_config : ChatConfig)
  : PyError + string :=
  match _get_lib_module_path (model m) model_path chat_config
          (model_lib_path m) (MASK2STR (device_type (device m)))
          config_file_path with
  | inl FileNotFoundError => jit model_path chat_config (device m)
  | r => r
  end.

(** Lines 72-109: [_convert_model_info]. *)
Definition _convert_model_info (m : ModelInfo) (st : ArgsState)
  : PyError + (list Arg * ArgsState) :=
  match _get_model_path (model m) with
  | inl e => inl e
  | inr (model_path, config_file_path) =>
      match _get_chat_config config_file_path with
      | inl e => inl e
      | inr chat_config =>
          let st :=
            {| max_single_sequence_length :=
                 match context_window_size chat_config with
                 | Some c =>
                     if c =? 0 then max_single_sequence_length st
                     else Z.min (max_single_sequence_length st) c
                 | None => max_single_sequence_length st
                 end;
               tokenizer_path :=
                 match tokenizer_path st with
                 | None => Some model_path
                 | Some p => Some p
                 end;
               conv_template_name :=
                 match conv_template_name st with
                 | None => conv_template chat_config
                 | Some t => Some t
                 end |} in
          match resolve_model_lib m model_path config_file_path
                  chat_config with
          | inl e => inl e
          | inr lib =>
              inr ([ArgStr lib; ArgStr model_path;
                    ArgInt (device_type (device m));
                    ArgInt (device_id (device m))], st)
          end
      end
  end.

(** Lines 112-115: [sum((_convert_model_info(model) for model in models),
    start=[])]. *)
Fixpoint convert_models (models : list ModelInfo) (acc : list Arg)
  (st : ArgsState) : PyError + (list Arg * ArgsState) :=
  match models with
  | [] => inr (acc, st)
  | m :: rest =>
      match _convert_model_info m st with
      | inl e => inl e
      | inr (args, st') => convert_models rest (acc ++ args) st'
      end
  end.

(** Lines 64-119: [_process_model_args]; the result is [model_args],
    [tokenizer_path], [max_single_sequence_length], [conv_template_name]. *)
Definition _process_model_args (models : ModelsArg)
  : PyError + (list Arg * option string * Z * option string) :=
  let st :=
    {| max_single_sequence_length := 1000000000;
       tokenizer_path := None;
       conv_template_name := None |} in
  match match models with
        | ModelList l => convert_models l [] st
        | OneModel m => _convert_model_info m st
        end with
  | inl e => inl e
  | inr (model_args, st) =>
      inr (model_args, tokenizer_path st, max_single_sequence_length st,
           conv_template_name st)
  end.

(** What the lookups say about one model: its directory and its chat
    config. *)
Definition model_files (m : ModelInfo) : option (string * ChatConfig) :=
  match _get_model_path (model m) with
  | inr (model_path, config_file_path) =>
      match _get_chat_config config_file_path with
      | inr chat_config => Some (model_path, chat_config)
      | inl _ => None
      end
  | inl _ => None
  end.

Definition path_of (m : ModelInfo) : option string :=
  fst <$> model_files m.

(** The context window of a model, when its config gives one that counts
    as true. *)
Definition window_of (m : ModelInfo) : option Z :=
  match model_files m with
  | Some (_, chat_config) =>
      match context_window_size chat_config with
      | Some c => if c =? 0 then None else Some c
      | None => None
      end
  | None => None
  end.

Definition template_of (m : ModelInfo) : option string :=
  match model_files m with
  | Some (_, chat_config) => conv_template chat_config
  | None => None
  end.

End ModelArgs.

(** The first entry that is present. *)
Fixpoint first_some {A} (l : list (option A)) : option A :=
  match l with
  | [] => None
  | Some x :: _ => Some x
  | None :: rest => first_some rest
  end.

(** Lookups for two models: [big] has a library and a conversation
    template, [small] has neither and a smaller context window. *)
Definition demo_get_model_path (name : string)
  : PyError + (string * string) :=
  inr (name, (name ++ ".json")%string).

Definition demo_get_chat_config (config_file_path : string)
  : PyError + ChatConfig :=
  if String.eqb config_file_path "small.json"
  then inr {| context_window_size := Some 2048; conv_template := None |}
  else inr {| context_window_size := Some 4096;
              conv_template := Some "llama-2"%string |}.

Definition demo_get_lib_module_path (name model_path : string)
  (chat_config : ChatConfig) (lib device_name config_file_path : string)
  : PyError + string :=
  if String.eqb lib "" then inl FileNotFoundError else inr lib.

Definition demo_mask2str (device_type : Z) : string := "cuda".

Definition demo_jit (model_path : string) (chat_config : ChatConfig)
  (d : Device) : PyError + string :=
  inr (model_path ++ ".jit.so")%string.

Definition big_model : ModelInfo :=
  {| model := "big"; model_lib_path := "big.so";
     device := {| device_type := 2; device_id := 0 |} |}.

Definition small_model : ModelInfo :=
  {| model := "small"; model_lib_path := "";
     device := {| device_type := 2; device_id := 1 |} |}.



(** What [_process_model_args] yields for [big_model] and [small_model]. *)
Definition demo_model_args : list Arg :=
  [ArgStr "big.so"; ArgStr "big"; ArgInt 2; ArgInt 0;
   ArgStr "small.jit.so"; ArgStr "small"; ArgInt 2; ArgInt 1].

Section Generate.

(** The tokenizer behind [TextStreamer]: [decode] maps a token sequence to
    its text, [safe_len h] is the number of leading characters of
    [decode h] that no later token can revise. *)
Variable decode : list Z -> text.
Variable safe_len : list Z -> nat.

(** The engine is a black box: a state, a reaction to [add_request], and
    a [step] that hands a sequence of event batches to the installed
    callback and may end in an engine-level error (a code). *)
Variable EState : Type.
Variable engine_add_request : Request -> EState -> EState * option nat.
Variable engine_step :
  EState -> EState * list (list RequestStreamOutput) * option nat.

(** *** IncrementalDetokenizer *)

(** Modelled from the spec: the class [TextStreamer] of
    python/mlc_chat/streamer.py is not part of the sources at hand; this
    is the incremental detokenizer of the design, section 4.1: the full
    token history, a cursor marking how much decoded text has been
    emitted (the unflushed suffix is what lies beyond it), and whether
    the stream has been closed by [finish]. *)
Record TextStreamer : Type := {
  ts_history : list Z;
  ts_cursor : nat;
  ts_closed : bool
}.

Definition new_text_streamer : TextStreamer :=
  {| ts_history := []; ts_cursor := 0%nat; ts_closed := false |}.

(** Modelled from the spec: [TextStreamer.put], section 4.1.  Appends the
    tokens to the history and returns the decoded text between the cursor
    and the end of the part that can no longer change; a call after
    [finish] is a fault. *)
Definition ts_put (t : TextStreamer) (token_ids : list Z)
  : Fault + (text * TextStreamer) :=
  if ts_closed t then inl StreamClosed
  else
    let h := ts_history t ++ token_ids in
    inr (drop (ts_cursor t) (take (safe_len h) (decode h)),
         {| ts_history := h; ts_cursor := safe_len h; ts_closed := false |}).

(** Modelled from the spec: [TextStreamer.finish], section 4.1.  Flushes
    all withheld text and closes the stream; a second call is a fault. *)
Definition ts_finish (t : TextStreamer) : Fault + (text * TextStreamer) :=
  if ts_closed t then inl StreamClosed
  else
    inr (drop (ts_cursor t) (decode (ts_history t)),
         {| ts_history := ts_history t;
            ts_cursor := length (decode (ts_history t));
            ts_closed := true |}).

(** *** The batch-scoped callback *)

(** The variables of [generate] that the closure captures. *)
Record BatchState : Type := {
  num_finished_requests : nat;
  outputs : list text;
  text_streamers : list TextStreamer;
  stop_handlers : list StopStringHandler
}.

Definition set_text_streamer (i : nat) (t : TextStreamer) (st : BatchState)
  : BatchState :=
  {| num_finished_requests := num_finished_requests st;
     outputs := outputs st;
     text_streamers := <[i:=t]> (text_streamers st);
     stop_handlers := stop_handlers st |}.

Definition set_stop_handler (i : nat) (h : StopStringHandler)
  (st : BatchState) : BatchState :=
  {| num_finished_requests := num_finished_requests st;
     outputs := outputs st;
     text_streamers := text_streamers st;
     stop_handlers := <[i:=h]> (stop_handlers st) |}.

(** Lines 286-294: one event pushed through the request's detokenizer and
    matcher.  Both objects are mutated in place, so their new values are
    returned on a fault as well; on success the result is [delta_text]
    and the value of the local [finish_reason] after line 294. *)
Definition feed (text_streamer : TextStreamer)
  (stop_handler : StopStringHandler) (token_ids : list Z)
  (finish_reason : option string)
  : (TextStreamer * StopStringHandler) * (Fault + (text * option string)) :=
  match ts_put text_streamer token_ids with
  | inl f => ((text_streamer, stop_handler), inl f)
  | inr (piece, ts1) =>
      let '(delta_text, sh1) := sh_put stop_handler piece in
      if stop_triggered sh1 then
        ((ts1, sh1), inr (delta_text, Some stop_reason))
      else
        match finish_reason with
        | None => ((ts1, sh1), inr (delta_text, None))
        | Some reason =>
            match ts_finish ts1 with
            | inl f => ((ts1, sh1), inl f)
            | inr (tail, ts2) =>
                let '(more, sh2) := sh_put sh1 tail in
                let delta_text := delta_text ++ more in
                if stop_triggered sh2 then
                  ((ts2, sh2), inr (delta_text, Some stop_reason))
                else
                  match sh_finish sh2 with
                  | inl f => ((ts2, sh2), inl f)
                  | inr (rest, sh3) =>
                      ((ts2, sh3), inr (delta_text ++ rest, Some reason))
                  end
            end
        end
  end.

(** Lines 281-298: the body of the loop over [delta_outputs].  The result
    carries the captured variables as the event leaves them, and either
    the fault raised or the final value of the local [finish_reason]. *)
Definition handle_delta_output (st : BatchState) (d : RequestStreamOutput)
  : BatchState * (Fault + option string) :=
  match py_int (rso_request_id d) with
  | None => (st, inl ValueError)
  | Some rid =>
      match py_index (length (text_streamers st)) rid ≫= λ i,
            pair i <$> text_streamers st !! i with
      | None => (st, inl IndexError)
      | Some (i_ts, text_streamer) =>
          match py_index (length (stop_handlers st)) rid ≫= λ i,
                pair i <$> stop_handlers st !! i with
          | None => (st, inl IndexError)
          | Some (i_sh, stop_handler) =>
              let '((ts', sh'), r) :=
                feed text_streamer stop_handler (rso_delta_tokens d)
                  (rso_finish_reason d) in
              let st := set_stop_handler i_sh sh'
                          (set_text_streamer i_ts ts' st) in
              match r with
              | inl f => (st, inl f)
              | inr (delta_text, finish_reason) =>
                  match py_index (length (outputs st)) rid ≫= λ i,
                        pair i <$> outputs st !! i with
                  | None => (st, inl IndexError)
                  | Some (i_out, out) =>
                      (match finish_reason with
                       | Some _ =>
                       {| num_finished_requests :=
                            Datatypes.S (num_finished_requests st);
                          outputs := <[i_out := out ++ delta_text]> (outputs st);
                          text_streamers := text_streamers st;
                          stop_handlers := stop_handlers st |}
                       | None =>
                       {| num_finished_requests := num_finished_requests st;
                          outputs := <[i_out := out ++ delta_text]> (outputs st);
                          text_streamers := text_streamers st;
                          stop_handlers := stop_handlers st |}
                       end, inr finish_reason)
                  end
              end
          end
      end
  end.

(** Lines 278-298: [request_stream_callback]. *)
Fixpoint request_stream_callback (st : BatchState)
  (delta_outputs : list RequestStreamOutput) : BatchState * option Fault :=
  match delta_outputs with
  | [] => (st, None)
  | d :: rest =>
      match handle_delta_output st d with
      | (st', inl f) => (st', Some f)
      | (st', inr _) => request_stream_callback st' rest
      end
  end.

(** *** The engine seen from [generate] *)

Definition record (x : Interaction) (w : World EState) : World EState :=
  {| callback := callback w; internal := internal w;
     trace := trace w ++ [x] |}.

(** [self._ffi["get_request_stream_callback"]()] *)
Definition get_request_stream_callback (w : World EState)
  : Callback * World EState :=
  (callback w, record GetCallback w).

(** [self._ffi["set_request_stream_callback"](cb)] *)
Definition set_request_stream_callback (cb : Callback) (w : World EState)
  : World EState :=
  {| callback := cb; internal := internal w;
     trace := trace w ++ [SetCallback cb] |}.

(** [self.add_request(request)] *)
Definition add_request (r : Request) (w : World EState) : World EState * option Fault :=
  let '(s, err) := engine_add_request r (internal w) in
  ({| callback := callback w; internal := s;
      trace := trace w ++ [AddRequest r] |}, EngineError <$> err).

(** The engine calls whatever sits in its callback slot; only the closure
    of the running [generate] touches the captured variables. *)
Definition invoke (cb : Callback) (st : BatchState)
  (delta_outputs : list RequestStreamOutput) : BatchState * option Fault :=
  match cb with
  | GenerateCallback => request_stream_callback st delta_outputs
  | _ => (st, None)
  end.

(** The callback deliveries of one step, in order; a fault raised by the
    callback ends the step. *)
Fixpoint deliver (st : BatchState) (ds : list (list RequestStreamOutput))
  (w : World EState) : BatchState * World EState * option Fault :=
  match ds with
  | [] => (st, w, None)
  | d :: ds' =>
      let w := record (Deliver d) w in
      match invoke (callback w) st d with
      | (st', Some f) => (st', w, Some f)
      | (st', None) => deliver st' ds' w
      end
  end.

(** [self.step()]: the engine works, delivering events through the
    callback, and returns or raises. *)
Definition step (st : BatchState) (w : World EState)
  : BatchState * World EState * option Fault :=
  let '(s, ds, err) := engine_step (internal w) in
  let w := {| callback := callback w; internal := s;
              trace := trace w ++ [Step] |} in
  match deliver st ds w with
  | (st', w', Some f) => (st', w', Some f)
  | (st', w', None) => (st', w', EngineError <$> err)
  end.

(** *** [Engine.generate] *)

(** Lines 263-270: the per-request variables, one entry per request. *)
Fixpoint init_requests (generation_config : list GenerationConfig)
  (ids : list nat) (st : BatchState) : Fault + BatchState :=
  match ids with
  | [] => inr st
  | i :: ids' =>
      match generation_config !! i with
      | None => inl IndexError
      | Some cfg =>
          init_requests generation_config ids'
            {| num_finished_requests := num_finished_requests st;
               outputs := outputs st ++ [[]];
               text_streamers := text_streamers st ++ [new_text_streamer];
               stop_handlers :=
                 stop_handlers st ++ [new_stop_handler (stop_strs cfg)] |}
      end
  end.

Definition empty_batch : BatchState :=
  {| num_finished_requests := 0%nat; outputs := [];
     text_streamers := []; stop_handlers := [] |}.

(** Lines 304-316: one [add_request] per (prompt, config) pair, with
    [str(req_id)] as the request id. *)
Fixpoint submit (req_id : nat) (pairs : list (PyVal * GenerationConfig))
  (w : World EState) : World EState * option Fault :=
  match pairs with
  | [] => (w, None)
  | (prompt, generation_cfg) :: rest =>
      let input_data :=
        match prompt with
        | VStr s => TextData s
        | _ => TokenData prompt
        end in
      if str_raises req_id then (w, Some ValueError)
      else
        match add_request {| request_id := py_str req_id;
                             inputs := input_data;
                             generation_config := generation_cfg |} w with
        | (w', Some f) => (w', Some f)
        | (w', None) => submit (Datatypes.S req_id) rest w'
        end
  end.

(** Lines 318-319: [while num_finished_requests != num_requests: step()].
    [fuel] bounds the number of iterations the model follows. *)
Fixpoint drive (fuel : nat) (num_requests : nat) (st : BatchState)
  (w : World EState) : Outcome BatchState * World EState :=
  if (num_finished_requests st =? num_requests)%nat then (Returned st, w)
  else
    match fuel with
    | O => (OutOfFuel, w)
    | Datatypes.S fuel' =>
        match step st w with
        | (_, w', Some f) => (Raised f, w')
        | (st', w', None) => drive fuel' num_requests st' w'
        end
    end.

Definition prompts_assertion : string :=
  "Input `prompts` is expected to be a string, a list of str, a list of token ids or multiple lists of token ids.".

Definition config_assertion : string :=
  "Number of generation config and number of prompts mismatch".

(** Lines 255-323: the part of [generate] after [prompts] has been made a
    list of prompts. *)
Definition generate_batch (prompts : list PyVal)
  (generation_config : ConfigArg) (fuel : nat) (w : World EState)
  : Outcome (list text) * World EState :=
  let num_requests := length prompts in
  let generation_config :=
    match generation_config with
    | ConfigList l => l
    | OneConfig c => replicate num_requests c
    end in
  if negb (length generation_config =? num_requests)%nat then
    (Raised (AssertionError config_assertion), w)
  else
    match init_requests generation_config (seq 0 num_requests)
            empty_batch with
    | inl f => (Raised f, w)
    | inr st =>
        let '(original_callback, w) := get_request_stream_callback w in
        let w := set_request_stream_callback GenerateCallback w in
        match submit 0 (zip prompts generation_config) w with
        | (w, Some f) => (Raised f, w)
        | (w, None) =>
            match drive fuel num_requests st w with
            | (Returned st', w) =>
                (Returned (outputs st'),
                 set_request_stream_callback original_callback w)
            | (Raised f, w) => (Raised f, w)
            | (OutOfFuel, w) => (OutOfFuel, w)
            end
        end
    end.

(** Lines 241-253, then the rest. *)
Definition generate (prompts : PyVal) (generation_config : ConfigArg)
  (fuel : nat) (w : World EState) : Outcome (list text) * World EState :=
  if isinstance_str prompts then
    generate_batch [prompts] generation_config fuel w
  else if negb (isinstance_list prompts) then
    (Raised (AssertionError prompts_assertion), w)
  else
    match elements prompts with
    | [] => (Returned [], w)
    | first :: _ =>
        if isinstance_int first then
          generate_batch [prompts] generation_config fuel w
        else
          generate_batch (elements prompts) generation_config fuel w
    end.

(** The number of prompts once a bare string or a flat token list has
    been wrapped into a one-element batch. *)
Definition promoted (prompts : PyVal) : list PyVal :=
  match prompts with
  | VStr _ => [prompts]
  | VList (VInt _ :: _) => [prompts]
  | VList l => l
  | _ => []
  end.

(** *** Notions used to state the properties *)

(** What [generate] has exchanged with the engine between two worlds. *)
Definition since (w w' : World EState) : list Interaction :=
  drop (length (trace w)) (trace w').

Fixpoint delivered (tr : list Interaction) : list RequestStreamOutput :=
  match tr with
  | [] => []
  | Deliver d :: tr' => d ++ delivered tr'
  | _ :: tr' => delivered tr'
  end.

Fixpoint added_requests (tr : list Interaction) : list Request :=
  match tr with
  | [] => []
  | AddRequest r :: tr' => r :: added_requests tr'
  | _ :: tr' => added_requests tr'
  end.

(** The requests lines 304-316 build, numbered from [req_id]. *)
Fixpoint requests_from (req_id : nat)
  (pairs : list (PyVal * GenerationConfig)) : list Request :=
  match pairs with
  | [] => []
  | (prompt, generation_cfg) :: rest =>
      {| request_id := py_str req_id;
         inputs := match prompt with
                   | VStr s => TextData s
                   | _ => TokenData prompt
                   end;
         generation_config := generation_cfg |}
      :: requests_from (Datatypes.S req_id) rest
  end.

(** [generate] left by returning, or by one of its two assertions. *)
Definition clean_exit (o : Outcome (list text)) : Prop :=
  match o with
  | Returned _ => True
  | Raised (AssertionError _) => True
  | _ => False
  end.

(** A bare string or a flat list starting with an int: one prompt. *)
Definition single_prompt (prompts : PyVal) : bool :=
  match prompts with
  | VStr _ => true
  | VList (VInt _ :: _) => true
  | _ => false
  end.

Definition is_assertion (f : Fault) : bool :=
  match f with AssertionError _ => true | _ => false end.

(** The configs in force, one per prompt, after broadcasting. *)
Definition configs_of (prompts : PyVal) (generation_config : ConfigArg)
  : list GenerationConfig :=
  match generation_config with
  | ConfigList l => l
  | OneConfig c => replicate (length (promoted prompts)) c
  end.

(** The three per-request lists have one entry per request. *)
Definition batch_of (n : nat) (st : BatchState) : Prop :=
  length (outputs st) = n /\ length (text_streamers st) = n /\
  length (stop_handlers st) = n.

(** The position in a batch of [n] requests that the subscript
    [int(request_id)] of an event denotes, if any. *)
Definition route (n : nat) (d : RequestStreamOutput) : option nat :=
  py_int (rso_request_id d) ≫= py_index n.

Definition events_for (n i : nat) (evs : list RequestStreamOutput)
  : list RequestStreamOutput :=
  filter (λ d, route n d = Some i) evs.

(** One request on its own: its accumulated output, detokenizer and
    matcher, and what one event does to them (lines 286-296). *)
Record ReqState : Type := {
  rq_output : text;
  rq_streamer : TextStreamer;
  rq_handler : StopStringHandler
}.

Definition new_request (cfg : GenerationConfig) : ReqState :=
  {| rq_output := []; rq_streamer := new_text_streamer;
     rq_handler := new_stop_handler (stop_strs cfg) |}.

Definition request_event (r : ReqState) (d : RequestStreamOutput)
  : ReqState * (Fault + option string) :=
  let '((ts', sh'), res) :=
    feed (rq_streamer r) (rq_handler r) (rso_delta_tokens d)
      (rso_finish_reason d) in
  match res with
  | inl f =>
      ({| rq_output := rq_output r; rq_streamer := ts';
          rq_handler := sh' |}, inl f)
  | inr (delta_text, finish_reason) =>
      ({| rq_output := rq_output r ++ delta_text; rq_streamer := ts';
          rq_handler := sh' |}, inr finish_reason)
  end.

(** The events of one request in arrival order: the state they lead to
    and the final finish reason of the last one ([last] when there is
    none); [None] when one of them faults. *)
Fixpoint request_run (r : ReqState) (last : option string)
  (evs : list RequestStreamOutput) : option (ReqState * option string) :=
  match evs with
  | [] => Some (r, last)
  | d :: rest =>
      match request_event r d with
      | (r', inr finish_reason) => request_run r' finish_reason rest
      | (_, inl _) => None
      end
  end.

(** The finish reason a request ends the batch call with. *)
Definition final_reason (cfg : GenerationConfig)
  (evs : list RequestStreamOutput) : option string :=
  match request_run (new_request cfg) None evs with
  | Some (_, reason) => reason
  | None => None
  end.

Definition request_at (st : BatchState) (i : nat) : option ReqState :=
  out ← outputs st !! i;
  t ← text_streamers st !! i;
  h ← stop_handlers st !! i;
  Some {| rq_output := out; rq_streamer := t; rq_handler := h |}.

(** The captured variables right after lines 263-270. *)
Definition fresh_batch (cfgs : list GenerationConfig) : BatchState :=
  {| num_finished_requests := 0%nat;
     outputs := replicate (length cfgs) [];
     text_streamers := replicate (length cfgs) new_text_streamer;
     stop_handlers := map (λ c, new_stop_handler (stop_strs c)) cfgs |}.

(** The captured variables once request [i] has become [r] through an
    event with result [res]. *)
Definition store_request (i : nat) (r : ReqState)
  (res : Fault + option string) (st : BatchState) : BatchState :=
  {| num_finished_requests :=
       match res with
       | inr (Some _) => Datatypes.S (num_finished_requests st)
       | _ => num_finished_requests st
       end;
     outputs := <[i := rq_output r]> (outputs st);
     text_streamers := <[i := rq_streamer r]> (text_streamers st);
     stop_handlers := <[i := rq_handler r]> (stop_handlers st) |}.

(** A request is Done once its matcher has triggered or its detokenizer
    has been closed by the processing of a finish reason. *)
Definition request_done (r : ReqState) : bool :=
  stop_triggered (rq_handler r) || ts_closed (rq_streamer r).

Definition done_at (st : BatchState) (i : nat) : bool :=
  match request_at st i with
  | Some r => request_done r
  | None => false
  end.

Definition done_count (st : BatchState) : nat :=
  length (filter (λ i, done_at st i = true) (seq 0 (length (outputs st)))).

(** No event of the sequence is addressed to a request that is Done when
    the event arrives. *)
Fixpoint only_live (st : BatchState) (evs : list RequestStreamOutput)
  : bool :=
  match evs with
  | [] => true
  | d :: rest =>
      match route (length (outputs st)) d with
      | Some i => negb (done_at st i)
      | None => true
      end && only_live (fst (handle_delta_output st d)) rest
  end.

(** Stop string [s] of [S] occupies [T[k : k + len s]]. *)
Definition occurs_at (S : list text) (T : text) (k : nat) (s : text)
  : Prop :=
  In s S /\ (k + length s <= length T)%nat /\
  take (length s) (drop k T) = s.

(** [k] is the start offset of the first occurrence of a stop string. *)
Definition first_occurrence (S : list text) (T : text) (k : nat) : Prop :=
  (exists s, occurs_at S T k s) /\
  forall k' s', occurs_at S T k' s' -> (k <= k')%nat.

Definition tokens_of (evs : list RequestStreamOutput) : list Z :=
  concat (map rso_delta_tokens evs).

(** Neither text rules the other out as a prefix: a stop string [s] can
    still start where [a] starts, now or after more text arrives. *)
Definition compatb (a s : text) : bool := prefixb a s || prefixb s a.

(** No stop string can start before offset [n] of [E], whatever text
    follows [E]. *)
Definition dead_before (S : list text) (E : text) (n : nat) : Prop :=
  forall p s, (p < n)%nat -> In s S -> compatb (drop p E) s = false.

(** The text a detokenizer has released so far. *)
Definition streamed (t : TextStreamer) : text :=
  take (ts_cursor t) (decode (ts_history t)).

(** An open detokenizer whose cursor lies within the stable text. *)
Definition ts_ok (t : TextStreamer) : Prop :=
  ts_closed t = false /\ (ts_cursor t <= safe_len (ts_history t))%nat.

(** Where a request stands with respect to the stop strings [S], with
    [last] the finish reason its latest event ended with: still
    streaming; stopped by the matcher at the first occurrence within the
    text released up to offset [c]; or flushed to the end without a
    stop string in the whole text. *)
Inductive phase (S : list text) (r : ReqState) (last : option string)
  : Prop :=
| phase_live :
    ts_ok (rq_streamer r) ->
    sh_finished (rq_handler r) = false ->
    stop_triggered (rq_handler r) = false ->
    sh_stop_strs (rq_handler r) = S ->
    rq_output r ++ sh_buffer (rq_handler r) = streamed (rq_streamer r) ->
    dead_before S (streamed (rq_streamer r)) (length (rq_output r)) ->
    last = None ->
    phase S r last
| phase_stopped (c k : nat) :
    stop_triggered (rq_handler r) = true ->
    ts_closed (rq_streamer r) = true \/
      (c <= safe_len (ts_history (rq_streamer r)))%nat ->
    first_occurrence S (take c (decode (ts_history (rq_streamer r)))) k ->
    rq_output r = take k (take c (decode (ts_history (rq_streamer r)))) ->
    last = Some stop_reason ->
    phase S r last
| phase_finished :
    ts_closed (rq_streamer r) = true ->
    stop_triggered (rq_handler r) = false ->
    rq_output r = decode (ts_history (rq_streamer r)) ->
    (forall p s, ~ occurs_at S (decode (ts_history (rq_streamer r))) p s) ->
    is_Some last ->
    phase S r last.

(** A matcher that has not triggered, has released [out] of the text [E]
    it was given and withholds the rest. *)
Definition matching (S : list text) (h : StopStringHandler)
  (out E : text) : Prop :=
  stop_triggered h = false /\ sh_stop_strs h = S /\
  out ++ sh_buffer h = E /\ dead_before S E (length out).

(** An ASCII decimal digit. *)
Definition plain_digit (c : N) : Prop := (48 <= c <= 57)%N.

(** The interactions of the driving loop: steps and the callback
    deliveries they cause. *)
Definition is_step_or_deliver (x : Interaction) : bool :=
  match x with
  | Step | Deliver _ => true
  | _ => false
  end.

(** The request lines 304-316 build for prompt [p] at position [i]. *)
Definition request_for (i : nat) (p : PyVal) (cfg : GenerationConfig)
  : Request :=
  {| request_id := py_str i;
     inputs := match p with
               | VStr s => TextData s
               | _ => TokenData p
               end;
     generation_config := cfg |}.

(** ** Properties *)

(** *** Subscripts *)

Lemma py_index_lt n z i : py_index n z = Some i -> (i < n)%nat.
Proof.
  unfold py_index.
  destruct ((0 <=? z) && (z <? Z.of_nat n)) eqn:E1.
  - intros [= <-]. apply andb_true_iff in E1 as [? ?]. lia.
  - destruct ((- Z.of_nat n <=? z) && (z <? 0)) eqn:E2; [|done].
    intros [= <-]. apply andb_true_iff in E2 as [? ?]. lia.
Qed.

Lemma py_index_outside n z :
  Z.of_nat n <= z \/ z < - Z.of_nat n -> py_index n z = None.
Proof.
  intros H. unfold py_index.
  destruct ((0 <=? z) && (z <? Z.of_nat n)) eqn:E1.
  { apply andb_true_iff in E1 as [? ?]. lia. }
  destruct ((- Z.of_nat n <=? z) && (z <? 0)) eqn:E2; [|done].
  apply andb_true_iff in E2 as [? ?]. lia.
Qed.

Lemma py_index_negative n z :
  - Z.of_nat n <= z < 0 -> py_index n z = Some (Z.to_nat (Z.of_nat n + z)).
Proof.
  intros H. unfold py_index.
  destruct ((0 <=? z) && (z <? Z.of_nat n)) eqn:E1.
  { apply andb_true_iff in E1 as [? ?]. lia. }
  destruct ((- Z.of_nat n <=? z) && (z <? 0)) eqn:E2; [done|].
  apply andb_false_iff in E2 as [?|?]; lia.
Qed.

(** *** The callback slot along the protocol *)

Lemma add_request_callback r w :
  callback (add_request r w).1 = callback w.
Proof. unfold add_request. destruct (engine_add_request _ _). done. Qed.

Lemma submit_callback pairs : forall req_id w,
  callback (submit req_id pairs w).1 = callback w.
Proof.
  induction pairs as [|[p c] rest IH]; intros req_id w; simpl; [done|].
  destruct (str_raises req_id); [done|].
  match goal with |- context [add_request ?r w] =>
    pose proof (add_request_callback r w) as H;
    destruct (add_request r w) as [w1 [f|]] end; simpl in *; [done|].
  rewrite IH. done.
Qed.

Lemma deliver_callback ds : forall st w,
  callback (deliver st ds w).1.2 = callback w.
Proof.
  induction ds as [|d ds IH]; intros st w; simpl; [done|].
  destruct (invoke _ st d) as [st' [f|]]; simpl; [done|].
  rewrite IH. done.
Qed.

Lemma step_callback st w : callback (step st w).1.2 = callback w.
Proof.
  unfold step. destruct (engine_step _) as [[s ds] err].
  match goal with |- context [deliver st ds ?w0] =>
    pose proof (deliver_callback ds st w0) as H;
    destruct (deliver st ds w0) as [[st' w'] [f|]] end; simpl in *; done.
Qed.

Lemma drive_callback fuel n : forall st w,
  callback (drive fuel n st w).2 = callback w.
Proof.
  induction fuel as [|fuel IH]; intros st w; simpl.
  - destruct (_ =? _)%nat; done.
  - destruct (_ =? _)%nat; [done|].
    pose proof (step_callback st w) as H.
    destruct (step st w) as [[st' w'] [f|]]; simpl in *; [done|].
    rewrite IH. done.
Qed.

Lemma drive_returned fuel n : forall st w st' w',
  drive fuel n st w = (Returned st', w') -> num_finished_requests st' = n.
Proof.
  induction fuel as [|fuel IH]; intros st w st' w'; simpl.
  - destruct (_ =? _)%nat eqn:E; [|done].
    intros [= <- <-]. by apply Nat.eqb_eq.
  - destruct (_ =? _)%nat eqn:E.
    + intros [= <- <-]. by apply Nat.eqb_eq.
    + destruct (step st w) as [[st1 w1] [f|]]; [done|]. apply IH.
Qed.

Lemma drive_exit fuel st w :
  drive fuel (num_finished_requests st) st w = (Returned st, w).
Proof. destruct fuel; simpl; rewrite Nat.eqb_refl; done. Qed.

(** *** The per-request variables *)

Lemma init_requests_seq cfgs : forall m k st,
  (k + m <= length cfgs)%nat ->
  init_requests cfgs (seq k m) st =
  inr {| num_finished_requests := num_finished_requests st;
         outputs := outputs st ++ replicate m [];
         text_streamers := text_streamers st ++ replicate m new_text_streamer;
         stop_handlers :=
           stop_handlers st ++
           map (λ c, new_stop_handler (stop_strs c)) (take m (drop k cfgs)) |}.
Proof.
  induction m as [|m IH]; intros k st Hk; simpl.
  - rewrite !app_nil_r. by destruct st.
  - destruct (lookup_lt_is_Some_2 cfgs k) as [c Hc]; [lia|].
    rewrite Hc, IH by lia. simpl.
    rewrite (drop_S _ _ _ Hc). simpl.
    rewrite <- !app_assoc. done.
Qed.

Lemma init_requests_fresh cfgs :
  init_requests cfgs (seq 0 (length cfgs)) empty_batch =
  inr (fresh_batch cfgs).
Proof.
  rewrite init_requests_seq by (simpl; lia).
  unfold fresh_batch. simpl. rewrite drop_0, firstn_all. done.
Qed.

Lemma fresh_batch_of cfgs : batch_of (length cfgs) (fresh_batch cfgs).
Proof.
  unfold batch_of, fresh_batch. simpl.
  rewrite !length_replicate, length_map. done.
Qed.

Lemma request_at_fresh cfgs i cfg :
  cfgs !! i = Some cfg ->
  request_at (fresh_batch cfgs) i = Some (new_request cfg).
Proof.
  intros H. pose proof (lookup_lt_Some _ _ _ H) as Hi.
  unfold request_at, fresh_batch. simpl.
  rewrite !lookup_replicate_2 by done. simpl.
  rewrite list_lookup_fmap, H. done.
Qed.

Lemma request_at_lookups st i r :
  request_at st i = Some r ->
  outputs st !! i = Some (rq_output r) /\
  text_streamers st !! i = Some (rq_streamer r) /\
  stop_handlers st !! i = Some (rq_handler r).
Proof.
  unfold request_at.
  destruct (outputs st !! i); simpl; [|done].
  destruct (text_streamers st !! i); simpl; [|done].
  destruct (stop_handlers st !! i); simpl; [|done].
  intros [= <-]. done.
Qed.

Lemma request_at_is_Some n st i :
  batch_of n st -> (i < n)%nat -> is_Some (request_at st i).
Proof.
  intros (H1 & H2 & H3) Hi. unfold request_at.
  destruct (lookup_lt_is_Some_2 (outputs st) i) as [? ->]; [lia|].
  destruct (lookup_lt_is_Some_2 (text_streamers st) i) as [? ->]; [lia|].
  destruct (lookup_lt_is_Some_2 (stop_handlers st) i) as [? ->]; [lia|].
  simpl. eauto.
Qed.

Lemma route_lt n d i : route n d = Some i -> (i < n)%nat.
Proof.
  unfold route. destruct (py_int _); simpl; [|done]. apply py_index_lt.
Qed.

(** The loop body, read per request. *)
Lemma handle_routed n st d i r :
  batch_of n st -> route n d = Some i -> request_at st i = Some r ->
  handle_delta_output st d =
  (store_request i (request_event r d).1 (request_event r d).2 st,
   (request_event r d).2).
Proof.
  intros (H1 & H2 & H3) Hr Hat.
  apply request_at_lookups in Hat as (Ho & Ht & Hh).
  unfold handle_delta_output, route in *.
  destruct (py_int (rso_request_id d)) as [rid|]; simpl in Hr; [|done].
  rewrite H2, H3, Hr. simpl. rewrite Ht, Hh. simpl.
  unfold request_event.
  destruct (feed _ _ _ _) as [[ts' sh'] [f|[delta fr]]]; simpl.
  - unfold store_request, set_stop_handler, set_text_streamer. simpl.
    rewrite (list_insert_id _ _ _ Ho). done.
  - rewrite H1, Hr. simpl. rewrite Ho. simpl.
    unfold store_request. simpl. destruct fr; done.
Qed.

Lemma handle_unrouted n st d :
  batch_of n st -> route n d = None ->
  handle_delta_output st d =
  (st, inl match py_int (rso_request_id d) with
           | None => ValueError
           | Some _ => IndexError
           end).
Proof.
  intros (H1 & H2 & H3) Hr. unfold handle_delta_output, route in *.
  destruct (py_int (rso_request_id d)) as [rid|]; simpl in Hr; [|done].
  rewrite H2, Hr. done.
Qed.

Lemma store_request_batch_of n i r res st :
  batch_of n st -> batch_of n (store_request i r res st).
Proof.
  intros (H1 & H2 & H3). unfold batch_of, store_request. simpl.
  rewrite !length_insert. done.
Qed.

Lemma handle_batch_of n st d :
  batch_of n st -> batch_of n (handle_delta_output st d).1.
Proof.
  intros Hb. destruct (route n d) as [i|] eqn:Hr.
  - destruct (request_at_is_Some n st i Hb (route_lt _ _ _ Hr)) as [r Hat].
    rewrite (handle_routed n st d i r) by done. simpl.
    by apply store_request_batch_of.
  - rewrite (handle_unrouted n st d) by done. done.
Qed.

Lemma handle_count st d :
  (num_finished_requests st <=
     num_finished_requests (handle_delta_output st d).1 <=
     Datatypes.S (num_finished_requests st))%nat.
Proof.
  unfold handle_delta_output.
  destruct (py_int _) as [rid|]; simpl; [|lia].
  destruct (_ ≫= _) as [[i_ts t]|]; simpl; [|lia].
  destruct (_ ≫= _) as [[i_sh h]|]; simpl; [|lia].
  destruct (feed _ _ _ _) as [[ts' sh'] [f|[delta fr]]]; simpl; [lia|].
  destruct (_ ≫= _) as [[i_out out]|]; simpl; [|lia].
  destruct fr; simpl; lia.
Qed.

Lemma callback_batch_of n evs : forall st,
  batch_of n st -> batch_of n (request_stream_callback st evs).1.
Proof.
  induction evs as [|d evs IH]; intros st Hb; simpl; [done|].
  pose proof (handle_batch_of n st d Hb) as H.
  destruct (handle_delta_output st d) as [st' [f|fr]]; simpl in *; [done|].
  by apply IH.
Qed.

Lemma callback_count evs : forall st,
  (num_finished_requests st <=
     num_finished_requests (request_stream_callback st evs).1 <=
     num_finished_requests st + length evs)%nat.
Proof.
  induction evs as [|d evs IH]; intros st; simpl; [lia|].
  pose proof (handle_count st d) as H.
  destruct (handle_delta_output st d) as [st' [f|fr]]; simpl in *; [lia|].
  specialize (IH st'). lia.
Qed.

Lemma deliver_batch_of n ds : forall st w,
  batch_of n st -> batch_of n (deliver st ds w).1.1.
Proof.
  induction ds as [|d ds IH]; intros st w Hb; simpl; [done|].
  destruct w as [cb s tr]. simpl.
  assert (batch_of n (invoke cb st d).1) as H.
  { destruct cb; simpl; try done. by apply callback_batch_of. }
  destruct (invoke cb st d) as [st' [f|]]; simpl in *; [done|].
  by apply IH.
Qed.

Lemma step_batch_of n st w :
  batch_of n st -> batch_of n (step st w).1.1.
Proof.
  intros Hb. unfold step. destruct (engine_step _) as [[s ds] err].
  match goal with |- context [deliver st ds ?w0] =>
    pose proof (deliver_batch_of n ds st w0 Hb) as H;
    destruct (deliver st ds w0) as [[st' w'] [f|]] end; simpl in *; done.
Qed.

Lemma drive_batch_of fuel n m : forall st w st' w',
  batch_of n st -> drive fuel m st w = (Returned st', w') -> batch_of n st'.
Proof.
  induction fuel as [|fuel IH]; intros st w st' w' Hb; simpl.
  - destruct (_ =? _)%nat; [|done]. by intros [= <- <-].
  - destruct (_ =? _)%nat; [by intros [= <- <-]|].
    pose proof (step_batch_of n st w Hb) as H.
    destruct (step st w) as [[st1 w1] [f|]]; [done|]. simpl in H.
    by apply IH.
Qed.

(** *** Which faults come from where *)

Lemma feed_fault t h ids fr p f :
  feed t h ids fr = (p, inl f) -> f = StreamClosed.
Proof.
  unfold feed, ts_put, ts_finish, sh_finish.
  destruct (ts_closed t); [by intros [= _ <-]|].
  destruct (sh_put h _) as [delta sh1].
  destruct (stop_triggered sh1); [done|].
  destruct fr as [reason|]; [|done]. simpl.
  destruct (sh_put sh1 _) as [more sh2].
  destruct (stop_triggered sh2); [done|].
  destruct (sh_finished sh2); [by intros [= _ <-]|done].
Qed.

Lemma handle_fault st d st' f :
  handle_delta_output st d = (st', inl f) -> is_assertion f = false.
Proof.
  unfold handle_delta_output.
  destruct (py_int _) as [rid|]; [|by intros [= _ <-]].
  destruct (_ ≫= _) as [[i_ts t]|]; [|by intros [= _ <-]].
  destruct (_ ≫= _) as [[i_sh h]|]; [|by intros [= _ <-]].
  destruct (feed _ _ _ _) as [[ts' sh'] [f'|[delta fr]]] eqn:E.
  - intros [= _ <-]. by rewrite (feed_fault _ _ _ _ _ _ E).
  - destruct (_ ≫= _) as [[i_out out]|]; [done|by intros [= _ <-]].
Qed.

Lemma callback_fault evs : forall st st' f,
  request_stream_callback st evs = (st', Some f) -> is_assertion f = false.
Proof.
  induction evs as [|d evs IH]; intros st st' f; simpl; [done|].
  destruct (handle_delta_output st d) as [st1 [f1|fr]] eqn:E.
  - intros [= _ <-]. eapply handle_fault, E.
  - apply IH.
Qed.

Lemma deliver_fault ds : forall st w st' w' f,
  deliver st ds w = (st', w', Some f) -> is_assertion f = false.
Proof.
  induction ds as [|d ds IH]; intros st w st' w' f; simpl; [done|].
  destruct (invoke _ st d) as [st1 [f1|]] eqn:E.
  - intros [= _ _ <-]. destruct (callback w); simpl in E; try done.
    eapply callback_fault, E.
  - apply IH.
Qed.

Lemma step_fault st w st' w' f :
  step st w = (st', w', Some f) -> is_assertion f = false.
Proof.
  unfold step. destruct (engine_step _) as [[s ds] err].
  destruct (deliver _ _ _) as [[st1 w1] [f1|]] eqn:E.
  - intros [= _ _ <-]. eapply deliver_fault, E.
  - destruct err; simpl; [by intros [= _ _ <-]|done].
Qed.

Lemma drive_fault fuel n : forall st w f w',
  drive fuel n st w = (Raised f, w') -> is_assertion f = false.
Proof.
  induction fuel as [|fuel IH]; intros st w f w'; simpl.
  - destruct (_ =? _)%nat; done.
  - destruct (_ =? _)%nat; [done|].
    destruct (step st w) as [[st1 w1] [f1|]] eqn:E.
    + intros [= <- _]. eapply step_fault, E.
    + apply IH.
Qed.

Lemma submit_fault pairs : forall req_id w w' f,
  submit req_id pairs w = (w', Some f) -> is_assertion f = false.
Proof.
  induction pairs as [|[p c] rest IH]; intros req_id w w' f; simpl; [done|].
  destruct (str_raises req_id); [by intros [= _ <-]|].
  unfold add_request at 1. destruct (engine_add_request _ _) as [s [e|]]; simpl.
  - by intros [= _ <-].
  - apply IH.
Qed.

(** *** The shape of a call *)

Lemma generate_cases prompts gc fuel w :
  generate prompts gc fuel w =
  match prompts with
  | VStr _ | VList (_ :: _) => generate_batch (promoted prompts) gc fuel w
  | VList [] => (Returned [], w)
  | _ => (Raised (AssertionError prompts_assertion), w)
  end.
Proof. destruct prompts as [s|z|[|[] l]|]; reflexivity. Qed.

Lemma promoted_nonempty prompts :
  promoted prompts <> [] ->
  forall gc fuel w,
    generate prompts gc fuel w = generate_batch (promoted prompts) gc fuel w.
Proof.
  intros H gc fuel w. rewrite generate_cases.
  destruct prompts as [s|z|[|[] l]|]; done.
Qed.

(** With matching config count, the call is: read the slot, install the
    closure, submit, drive, and on normal exit restore. *)
Lemma generate_batch_run prompts gc fuel w :
  promoted prompts <> [] ->
  length (configs_of prompts gc) = length (promoted prompts) ->
  generate prompts gc fuel w =
  let cfgs := configs_of prompts gc in
  let w1 := set_request_stream_callback GenerateCallback
              (get_request_stream_callback w).2 in
  match submit 0 (zip (promoted prompts) cfgs) w1 with
  | (w2, Some f) => (Raised f, w2)
  | (w2, None) =>
      match drive fuel (length (promoted prompts)) (fresh_batch cfgs) w2 with
      | (Returned st', w3) =>
          (Returned (outputs st'),
           set_request_stream_callback (callback w) w3)
      | (Raised f, w3) => (Raised f, w3)
      | (OutOfFuel, w3) => (OutOfFuel, w3)
      end
  end.
Proof.
  intros Hne Hlen. rewrite promoted_nonempty by done.
  unfold generate_batch.
  change (match gc with
          | OneConfig c => replicate (length (promoted prompts)) c
          | ConfigList l => l
          end) with (configs_of prompts gc).
  rewrite Hlen, Nat.eqb_refl. simpl negb. cbv iota.
  rewrite <- Hlen at 1. rewrite init_requests_fresh. done.
Qed.

Lemma generate_mismatch prompts l fuel w :
  promoted prompts <> [] ->
  length l <> length (promoted prompts) ->
  generate prompts (ConfigList l) fuel w =
  (Raised (AssertionError config_assertion), w).
Proof.
  intros Hne Hlen. rewrite promoted_nonempty by done.
  unfold generate_batch.
  apply Nat.eqb_neq in Hlen. rewrite Hlen. done.
Qed.

(** *** What a call exchanges with the engine *)

Lemma added_requests_app tr1 tr2 :
  added_requests (tr1 ++ tr2) = added_requests tr1 ++ added_requests tr2.
Proof.
  induction tr1 as [|x tr1 IH]; simpl; [done|].
  destruct x; simpl; rewrite IH; done.
Qed.

Lemma delivered_app tr1 tr2 :
  delivered (tr1 ++ tr2) = delivered tr1 ++ delivered tr2.
Proof.
  induction tr1 as [|x tr1 IH]; simpl; [done|].
  destruct x; simpl; rewrite IH; try done. by rewrite app_assoc.
Qed.

Lemma added_requests_map rs : added_requests (map AddRequest rs) = rs.
Proof. induction rs as [|r rs IH]; simpl; [done|]. by rewrite IH. Qed.

Lemma delivered_map rs : delivered (map AddRequest rs) = [].
Proof. induction rs as [|r rs IH]; simpl; done. Qed.

Lemma since_app w w' tr : trace w' = trace w ++ tr -> since w w' = tr.
Proof. intros H. unfold since. rewrite H. apply drop_app_length. Qed.

Lemma submit_ok pairs : forall req_id w w',
  submit req_id pairs w = (w', None) ->
  trace w' = trace w ++ map AddRequest (requests_from req_id pairs) /\
  callback w' = callback w.
Proof.
  induction pairs as [|[p c] rest IH]; intros req_id w w'; simpl.
  - intros [= <-]. by rewrite app_nil_r.
  - destruct (str_raises req_id); [done|].
    unfold add_request at 1.
    destruct (engine_add_request _ _) as [s [e|]]; simpl; [done|].
    intros H. apply IH in H as [-> ->]. simpl.
    rewrite <- app_assoc. done.
Qed.

(** [str] has not raised on any id of a submission that went through. *)
Lemma submit_ids pairs : forall req_id w w' i,
  submit req_id pairs w = (w', None) ->
  (i < length pairs)%nat -> str_raises (req_id + i) = false.
Proof.
  induction pairs as [|[p c] rest IH]; intros req_id w w' i; simpl; [lia|].
  destruct (str_raises req_id) eqn:Es; [done|].
  destruct (add_request _ w) as [w1 [f|]]; [done|].
  intros H Hi. destruct i as [|i]; [by rewrite Nat.add_0_r|].
  replace (req_id + Datatypes.S i)%nat with (Datatypes.S req_id + i)%nat
    by lia.
  apply (IH _ _ _ _ H). lia.
Qed.

Lemma callback_app evs1 evs2 st :
  request_stream_callback st (evs1 ++ evs2) =
  match request_stream_callback st evs1 with
  | (st1, None) => request_stream_callback st1 evs2
  | r => r
  end.
Proof.
  revert st. induction evs1 as [|d evs1 IH]; intros st; simpl; [done|].
  destruct (handle_delta_output st d) as [st1 [f|fr]]; [done|]. apply IH.
Qed.

Lemma deliver_ok ds : forall st w st' w',
  callback w = GenerateCallback ->
  deliver st ds w = (st', w', None) ->
  exists tr, trace w' = trace w ++ tr /\ added_requests tr = [] /\
             request_stream_callback st (delivered tr) = (st', None).
Proof.
  induction ds as [|d ds IH]; intros st w st' w' Hcb; simpl.
  - intros [= <- <-]. exists []. by rewrite app_nil_r.
  - rewrite Hcb. simpl.
    destruct (request_stream_callback st d) as [st1 [f|]] eqn:E; [done|].
    intros H. apply IH in H as (tr & Htr & Hadd & Hrun); [|done].
    exists (Deliver d :: tr). simpl in *.
    rewrite Htr, <- app_assoc. split; [done|]. split; [done|].
    rewrite callback_app, E. done.
Qed.

Lemma step_ok st w st' w' :
  callback w = GenerateCallback ->
  step st w = (st', w', None) ->
  exists tr, trace w' = trace w ++ tr /\ added_requests tr = [] /\
             request_stream_callback st (delivered tr) = (st', None).
Proof.
  intros Hcb. unfold step. destruct (engine_step _) as [[s ds] err].
  destruct (deliver _ _ _) as [[st1 w1] [f|]] eqn:E; [done|].
  destruct err; simpl; [done|]. intros [= <- <-].
  apply deliver_ok in E as (tr & Htr & Hadd & Hrun); [|done].
  exists (Step :: tr). simpl in *. rewrite Htr, <- app_assoc. done.
Qed.

Lemma drive_ok fuel n : forall st w st' w',
  callback w = GenerateCallback ->
  drive fuel n st w = (Returned st', w') ->
  exists tr, trace w' = trace w ++ tr /\ added_requests tr = [] /\
             request_stream_callback st (delivered tr) = (st', None).
Proof.
  assert (forall st (w : World EState) st' w',
             (Returned st, w) = (Returned st', w') ->
    exists tr, trace w' = trace w ++ tr /\ added_requests tr = [] /\
               request_stream_callback st (delivered tr) = (st', None)) as H0.
  { intros st w st' w' [= <- <-]. exists []. by rewrite app_nil_r. }
  induction fuel as [|fuel IH]; intros st w st' w' Hcb; simpl.
  - destruct (_ =? _)%nat; [apply H0|done].
  - destruct (_ =? _)%nat; [apply H0|].
    pose proof (step_callback st w) as Hcb1.
    destruct (step st w) as [[st1 w1] [f|]] eqn:E; [done|]. simpl in Hcb1.
    apply step_ok in E as (tr1 & Htr1 & Hadd1 & Hrun1); [|done].
    intros H. apply IH in H as (tr2 & Htr2 & Hadd2 & Hrun2); [|congruence].
    exists (tr1 ++ tr2).
    rewrite Htr2, Htr1, <- app_assoc, added_requests_app, Hadd1, Hadd2.
    rewrite delivered_app, callback_app, Hrun1. done.
Qed.

(** A call on at least one prompt that returns has exchanged exactly
    this with the engine. *)
Lemma generate_returned prompts gc fuel w outs w' :
  promoted prompts <> [] ->
  generate prompts gc fuel w = (Returned outs, w') ->
  let cfgs := configs_of prompts gc in
  let n := length (promoted prompts) in
  length cfgs = n /\
  exists st' tr,
    since w w' =
      [GetCallback; SetCallback GenerateCallback] ++
      map AddRequest (requests_from 0 (zip (promoted prompts) cfgs)) ++
      tr ++ [SetCallback (callback w)] /\
    added_requests tr = [] /\
    request_stream_callback (fresh_batch cfgs) (delivered tr) = (st', None) /\
    outs = outputs st' /\ batch_of n st' /\
    num_finished_requests st' = n /\
    callback w' = callback w.
Proof.
  intros Hne Hgen cfgs n.
  assert (length cfgs = n) as Hlen.
  { destruct gc as [c|l]; [by apply length_replicate|].
    destruct (decide (length l = length (promoted prompts))) as [|Hn]; [done|].
    rewrite generate_mismatch in Hgen by done. done. }
  split; [done|].
  rewrite generate_batch_run in Hgen by done. cbv zeta in Hgen.
  fold cfgs in Hgen.
  destruct (submit _ _ _) as [w2 [f|]] eqn:Es; [done|].
  apply submit_ok in Es as [Htr2 Hcb2]. simpl in Htr2, Hcb2.
  destruct (drive _ _ _ _) as [[st'| |] w3] eqn:Ed; [|done|done].
  injection Hgen as <- <-.
  pose proof (drive_returned _ _ _ _ _ _ Ed) as Hcount.
  pose proof (drive_batch_of _ n _ _ _ _ _
                ltac:(rewrite <- Hlen; apply fresh_batch_of) Ed) as Hb.
  apply drive_ok in Ed as (tr & Htr3 & Hadd & Hrun); [|done].
  exists st', tr. repeat split; try done; try apply Hb.
  apply since_app. simpl. rewrite Htr3, Htr2.
  rewrite <- !app_assoc. done.
Qed.

Lemma generate_assertion prompts gc fuel w f w' :
  generate prompts gc fuel w = (Raised f, w') ->
  is_assertion f = true -> w' = w.
Proof.
  intros Hgen Hf.
  destruct (decide (promoted prompts = [])) as [He|Hne].
  { rewrite generate_cases in Hgen.
    destruct prompts as [s|z|[|[] l]|]; try done; by injection Hgen. }
  destruct (decide (length (configs_of prompts gc) =
                    length (promoted prompts))) as [Hlen|Hlen].
  - rewrite generate_batch_run in Hgen by done. cbv zeta in Hgen.
    destruct (submit _ _ _) as [w2 [f2|]] eqn:Es.
    + injection Hgen as <- <-. apply submit_fault in Es. congruence.
    + destruct (drive _ _ _ _) as [[st'|f3|] w3] eqn:Ed; try done.
      injection Hgen as <- <-. apply drive_fault in Ed. congruence.
  - destruct gc as [c|l]; simpl in Hlen.
    { by rewrite length_replicate in Hlen. }
    rewrite generate_mismatch in Hgen by done. by injection Hgen.
Qed.

Lemma requests_from_length pairs : forall req_id,
  length (requests_from req_id pairs) = length pairs.
Proof.
  induction pairs as [|[p c] rest IH]; intros req_id; simpl; [done|].
  by rewrite IH.
Qed.

(** A returning call has converted every request index with [str]. *)
Lemma generate_ids prompts gc fuel w outs w' i :
  generate prompts gc fuel w = (Returned outs, w') ->
  (i < length (promoted prompts))%nat -> str_raises i = false.
Proof.
  intros Hgen Hi.
  assert (promoted prompts <> []) as Hne.
  { destruct (promoted prompts); [simpl in Hi; lia|done]. }
  pose proof (generate_returned _ _ _ _ _ _ Hne Hgen) as (Hlen & _).
  rewrite generate_batch_run in Hgen by done. cbv zeta in Hgen.
  destruct (submit _ _ _) as [w2 [f|]] eqn:Es; [done|].
  apply (submit_ids _ 0 _ _ i Es). rewrite length_zip_with. lia.
Qed.

Lemma generate_added prompts gc fuel w outs w' :
  promoted prompts <> [] ->
  generate prompts gc fuel w = (Returned outs, w') ->
  added_requests (since w w') =
  requests_from 0 (zip (promoted prompts) (configs_of prompts gc)).
Proof.
  intros Hne Hgen.
  apply generate_returned in Hgen as (_ & st' & tr & -> & Hadd & _); [|done].
  simpl. rewrite !added_requests_app, added_requests_map, Hadd. simpl.
  by rewrite app_nil_r.
Qed.

Lemma generate_delivered prompts gc fuel w outs w' :
  promoted prompts <> [] ->
  generate prompts gc fuel w = (Returned outs, w') ->
  exists st',
    request_stream_callback (fresh_batch (configs_of prompts gc))
      (delivered (since w w')) = (st', None) /\
    outs = outputs st' /\
    batch_of (length (promoted prompts)) st' /\
    num_finished_requests st' = length (promoted prompts).
Proof.
  intros Hne Hgen.
  apply generate_returned in Hgen
    as (_ & st' & tr & -> & _ & Hrun & -> & Hb & Hc & _); [|done].
  exists st'. simpl.
  rewrite !delivered_app, delivered_map. simpl. rewrite app_nil_r. done.
Qed.

(** *** The protocol claims *)

(** C1 (amended): when [generate] returns normally, or stops at one of
    its two assertions, the engine's callback slot holds the callback
    that was active immediately before the call. *)
Theorem callback_restored_on_clean_exit prompts gc fuel w o w' :
  generate prompts gc fuel w = (o, w') ->
  clean_exit o ->
  callback w' = callback w.
Proof.
  intros Hgen Hexit. destruct o as [outs|f|]; [| |done].
  - destruct (decide (promoted prompts = [])) as [He|Hne].
    + rewrite generate_cases in Hgen.
      destruct prompts as [s|z|[|[] l]|]; try done. by injection Hgen as _ <-.
    + by apply generate_returned in Hgen as (_ & _ & _ & _ & _ & _ & _ & _ & _ & ?).
  - destruct f; try done. by rewrite (generate_assertion _ _ _ _ _ _ Hgen).
Qed.

(** C4 (amended): called on at least one prompt and a list of configs
    whose length differs from the number of prompts, [generate] faults
    with the world untouched: nothing has been read from or written to
    the callback slot, nothing submitted, no step taken. *)
Theorem config_mismatch_faults_first prompts l fuel w :
  promoted prompts <> [] ->
  length l <> length (promoted prompts) ->
  generate prompts (ConfigList l) fuel w =
  (Raised (AssertionError config_assertion), w).
Proof. apply generate_mismatch. Qed.

(** C9: on an empty list of prompts [generate] returns the empty list
    and leaves the world as it was: no interaction with the engine. *)
Theorem empty_prompts_no_contact gc fuel w :
  generate (VList []) gc fuel w = (Returned [], w).
Proof. reflexivity. Qed.

(** C10: a returning call yields one result per prompt after promotion
    and has submitted as many requests; a bare string or a flat token
    list is one prompt, submitted as the single request "0". *)
Theorem promotion_to_single_batch prompts gc fuel w outs w' :
  generate prompts gc fuel w = (Returned outs, w') ->
  length outs = length (promoted prompts) /\
  length (added_requests (since w w')) = length (promoted prompts) /\
  (single_prompt prompts = true ->
   length outs = 1%nat /\
   exists cfg,
     added_requests (since w w') =
     [{| request_id := txt "0";
         inputs := match prompts with
                   | VStr s => TextData s
                   | _ => TokenData prompts
                   end;
         generation_config := cfg |}]).
Proof.
  intros Hgen.
  destruct (decide (promoted prompts = [])) as [He|Hne].
  { rewrite generate_cases in Hgen.
    destruct prompts as [s|z|[|[] l]|]; try done.
    injection Hgen as <- <-. unfold since. rewrite drop_all. done. }
  pose proof (generate_added _ _ _ _ _ _ Hne Hgen) as Hadd.
  pose proof (generate_returned _ _ _ _ _ _ Hne Hgen)
    as (Hlen & st' & tr & _ & _ & _ & -> & (Hb & _) & _).
  assert (length (added_requests (since w w')) = length (promoted prompts))
    as Hn.
  { rewrite Hadd, requests_from_length, length_zip_with. lia. }
  split; [done|]. split; [done|]. intros Hs.
  assert (promoted prompts = [prompts]) as Hp.
  { destruct prompts as [s|z|[|[] l]|]; done. }
  rewrite Hp in *. split; [done|].
  destruct (configs_of prompts gc) as [|cfg [|]]; try done.
  exists cfg. rewrite Hadd. simpl. by destruct prompts.
Qed.

(** C7 (amended): an event whose request id [int] reads as an integer
    [rid] with [rid >= N] or [rid < -N] makes the callback fault with
    [IndexError]; the captured variables are as the events before it left
    them, no request has received it. *)
Theorem out_of_range_event_rejected n st pre d post st1 rid :
  batch_of n st ->
  request_stream_callback st pre = (st1, None) ->
  py_int (rso_request_id d) = Some rid ->
  Z.of_nat n <= rid \/ rid < - Z.of_nat n ->
  request_stream_callback st (pre ++ d :: post) = (st1, Some IndexError).
Proof.
  intros Hb Hpre Hid Hout. rewrite callback_app, Hpre. simpl.
  pose proof (callback_batch_of n pre st Hb) as Hb1.
  rewrite Hpre in Hb1. simpl in Hb1.
  rewrite (handle_unrouted n) by
    (try done; unfold route; rewrite Hid; simpl; by apply py_index_outside).
  rewrite Hid. done.
Qed.

(** *** Each request sees only its own events *)

Lemma request_at_store_eq n i r res st :
  batch_of n st -> (i < n)%nat ->
  request_at (store_request i r res st) i = Some r.
Proof.
  intros (H1 & H2 & H3) Hi. unfold request_at, store_request. simpl.
  rewrite !list_lookup_insert_eq by lia. simpl. by destruct r.
Qed.

Lemma request_at_store_ne i j r res st :
  i <> j -> request_at (store_request j r res st) i = request_at st i.
Proof.
  intros Hne. unfold request_at, store_request. simpl.
  rewrite !list_lookup_insert_ne by done. done.
Qed.

Lemma handle_ok_routed n st d st' fr :
  batch_of n st ->
  handle_delta_output st d = (st', inr fr) ->
  exists i r, route n d = Some i /\ request_at st i = Some r /\
              (request_event r d).2 = inr fr /\
              st' = store_request i (request_event r d).1 (inr fr) st.
Proof.
  intros Hb H. destruct (route n d) as [i|] eqn:Hr.
  - destruct (request_at_is_Some n st i Hb (route_lt _ _ _ Hr)) as [r Hat].
    rewrite (handle_routed n st d i r) in H by done.
    injection H as <- H. exists i, r. rewrite H. done.
  - rewrite (handle_unrouted n) in H by done. done.
Qed.

Lemma callback_projection n evs : forall st st',
  batch_of n st ->
  request_stream_callback st evs = (st', None) ->
  forall i r last,
    request_at st i = Some r ->
    exists r' last',
      request_run r last (events_for n i evs) = Some (r', last') /\
      request_at st' i = Some r'.
Proof.
  induction evs as [|d evs IH]; intros st st' Hb; simpl.
  - intros [= <-] i r last Hat. exists r, last. done.
  - destruct (handle_delta_output st d) as [st1 [f|fr]] eqn:E; [done|].
    intros Hrun i r last Hat.
    pose proof (handle_batch_of n st d Hb) as Hb1.
    rewrite E in Hb1. simpl in Hb1.
    apply (handle_ok_routed n) in E as (j & rj & Hr & Hatj & Hres & ->);
      [|done].
    unfold events_for.
    destruct (decide (j = i)) as [->|Hne].
    + rewrite filter_cons_True by done. simpl.
      assert (rj = r) as -> by congruence.
      destruct (request_event r d) as [r1 res] eqn:Ev. simpl in *. subst res.
      apply (IH _ _ Hb1 Hrun).
      apply (request_at_store_eq n); [done|]. by eapply route_lt.
    + rewrite filter_cons_False by congruence.
      apply (IH _ _ Hb1 Hrun). by rewrite request_at_store_ne.
Qed.

(** Result [i] of a returning call is what request [i] accumulates from
    the events addressed to it, taken on their own. *)
Lemma generate_projection prompts gc fuel w outs w' i cfg :
  generate prompts gc fuel w = (Returned outs, w') ->
  (i < length (promoted prompts))%nat ->
  configs_of prompts gc !! i = Some cfg ->
  exists r reason,
    request_run (new_request cfg) None
      (events_for (length (promoted prompts)) i (delivered (since w w')))
    = Some (r, reason) /\
    outs !! i = Some (rq_output r).
Proof.
  intros Hgen Hi Hcfg.
  assert (promoted prompts <> []) as Hne by (destruct (promoted prompts); simpl in *; [lia|done]).
  pose proof (generate_returned _ _ _ _ _ _ Hne Hgen) as (Hlen & _).
  apply generate_delivered in Hgen as (st' & Hrun & -> & Hb & _); [|done].
  eapply (callback_projection (length (promoted prompts))) in Hrun
    as (r & reason & Hreq & Hat);
    [| rewrite <- Hlen; apply fresh_batch_of | by apply request_at_fresh ].
  exists r, reason. split; [exact Hreq|].
  by apply request_at_lookups in Hat as (-> & _).
Qed.

(** C5: a returning call on N prompts yields N results, and result [i]
    is the output accumulated by request [i] from its own events in
    their arrival order, whatever events of other requests came before,
    between or after them. *)
Theorem results_in_prompt_order prompts gc fuel w outs w' :
  generate prompts gc fuel w = (Returned outs, w') ->
  length outs = length (promoted prompts) /\
  forall i cfg,
    (i < length (promoted prompts))%nat ->
    configs_of prompts gc !! i = Some cfg ->
    exists r reason,
      request_run (new_request cfg) None
        (events_for (length (promoted prompts)) i (delivered (since w w')))
      = Some (r, reason) /\
      outs !! i = Some (rq_output r).
Proof.
  intros Hgen. split.
  - destruct (decide (promoted prompts = [])) as [He|Hne].
    + rewrite generate_cases in Hgen.
      destruct prompts as [s|z|[|[] l]|]; try done. by injection Hgen as <- _.
    + by apply generate_returned in Hgen
        as (_ & st' & tr & _ & _ & _ & -> & (? & _) & _).
  - intros i cfg Hi Hcfg. by eapply generate_projection.
Qed.

(** *** Done requests *)

Lemma feed_closed t h ids fr :
  ts_closed t = true -> feed t h ids fr = ((t, h), inl StreamClosed).
Proof. intros H. unfold feed, ts_put. by rewrite H. Qed.

(** An event that is processed leaves a non-null finish reason exactly
    when it leaves its request Done. *)
Lemma feed_done t h ids fr t' h' delta fr' :
  feed t h ids fr = ((t', h'), inr (delta, fr')) ->
  is_Some fr' <-> stop_triggered h' || ts_closed t' = true.
Proof.
  unfold feed, ts_put, ts_finish, sh_finish.
  destruct (ts_closed t); [done|].
  destruct (sh_put h _) as [d1 sh1].
  destruct (stop_triggered sh1) eqn:E1.
  { intros [= <- <- _ <-]. rewrite E1. simpl. split; eauto. }
  destruct fr as [reason|]; simpl.
  - destruct (sh_put sh1 _) as [more sh2].
    destruct (stop_triggered sh2) eqn:E2.
    { intros [= <- <- _ <-]. rewrite E2. simpl. split; eauto. }
    destruct (sh_finished sh2); [done|].
    intros [= <- <- _ <-]. simpl. split; eauto.
  - intros [= <- <- _ <-]. rewrite E1. simpl.
    split; [by intros [? ?]|done].
Qed.

Lemma request_event_done r d r' fr :
  request_event r d = (r', inr fr) -> is_Some fr <-> request_done r' = true.
Proof.
  unfold request_event, request_done.
  destruct (feed _ _ _ _) as [[t' h'] [f|[delta fr']]] eqn:E; [done|].
  intros [= <- <-]. simpl. eapply feed_done, E.
Qed.

Lemma store_request_same i r f st :
  request_at st i = Some r -> store_request i r (inl f) st = st.
Proof.
  intros (Ho & Ht & Hh)%request_at_lookups.
  unfold store_request. simpl.
  rewrite !list_insert_id by done. by destruct st.
Qed.

(** C8 (amended): once the detokenizer of a request has been closed,
    which is what the processing of a finish reason does when the
    matcher has not triggered on the event's text, any further event
    addressed to that request makes the callback fault, and the
    captured variables are as the events before it left them. *)
Theorem event_after_finish_rejected n st pre d post st1 i r :
  batch_of n st ->
  request_stream_callback st pre = (st1, None) ->
  route n d = Some i ->
  request_at st1 i = Some r ->
  ts_closed (rq_streamer r) = true ->
  request_stream_callback st (pre ++ d :: post) = (st1, Some StreamClosed).
Proof.
  intros Hb Hpre Hr Hat Hc. rewrite callback_app, Hpre. simpl.
  pose proof (callback_batch_of n pre st Hb) as Hb1.
  rewrite Hpre in Hb1. simpl in Hb1.
  rewrite (handle_routed n st1 d i r) by done.
  unfold request_event. rewrite feed_closed by done. simpl.
  replace {| rq_output := rq_output r; rq_streamer := rq_streamer r;
             rq_handler := rq_handler r |} with r by (by destruct r).
  by rewrite store_request_same.
Qed.

(** *** Counting *)

Lemma filter_length_agree (P Q : nat -> Prop)
  `{!forall x, Decision (P x)} `{!forall x, Decision (Q x)} (l : list nat) :
  (forall j, j ∈ l -> P j <-> Q j) ->
  length (filter Q l) = length (filter P l).
Proof.
  induction l as [|x l IH]; intros Hagree; [done|].
  rewrite !filter_cons.
  assert (P x <-> Q x) as Hx by (apply Hagree, elem_of_cons; by left).
  assert (length (filter Q l) = length (filter P l)) as Hl.
  { apply IH. intros j Hj. apply Hagree, elem_of_cons. by right. }
  destruct (decide (P x)), (decide (Q x)); simpl; tauto || lia.
Qed.

Lemma filter_length_flip (P Q : nat -> Prop)
  `{!forall x, Decision (P x)} `{!forall x, Decision (Q x)} i (l : list nat) :
  NoDup l -> i ∈ l -> ~ P i -> Q i ->
  (forall j, j <> i -> P j <-> Q j) ->
  length (filter Q l) = Datatypes.S (length (filter P l)).
Proof.
  intros Hnd Hin HP HQ Hagree. induction l as [|x l IH].
  { by apply elem_of_nil in Hin. }
  apply NoDup_cons in Hnd as [Hx Hnd]. rewrite !filter_cons.
  destruct (decide (x = i)) as [->|Hne].
  - destruct (decide (P i)), (decide (Q i)); try tauto. simpl.
    f_equal. apply filter_length_agree.
    intros j Hj. apply Hagree. intros ->. done.
  - apply elem_of_cons in Hin as [?|Hin]; [congruence|].
    specialize (IH Hnd Hin). pose proof (Hagree x Hne) as Hpq.
    destruct (decide (P x)), (decide (Q x)); simpl; tauto || lia.
Qed.

Lemma done_count_le st : (done_count st <= length (outputs st))%nat.
Proof.
  unfold done_count.
  etransitivity; [apply length_filter|]. by rewrite length_seq.
Qed.

Lemma done_count_fresh cfgs : done_count (fresh_batch cfgs) = 0%nat.
Proof.
  unfold done_count.
  rewrite (filter_length_agree (λ _, False)
             (λ i, done_at (fresh_batch cfgs) i = true)).
  { generalize (seq 0 (length (outputs (fresh_batch cfgs)))).
    intros l. induction l as [|x l IH]; [done|].
    rewrite filter_cons_False; [exact IH|tauto]. }
  intros i Hi%elem_of_seq.
  unfold fresh_batch in Hi. simpl in Hi. rewrite length_replicate in Hi.
  destruct (lookup_lt_is_Some_2 cfgs i) as [cfg Hcfg]; [lia|].
  unfold done_at. by rewrite (request_at_fresh _ _ _ Hcfg).
Qed.

(** A processed event addressed to a live request keeps the count of
    finished requests equal to the number of Done requests. *)
Lemma handle_live_count n st d st' fr i :
  batch_of n st ->
  handle_delta_output st d = (st', inr fr) ->
  route n d = Some i -> done_at st i = false ->
  num_finished_requests st = done_count st ->
  num_finished_requests st' = done_count st'.
Proof.
  intros Hb H Hr Hlive Hc.
  pose proof Hb as (Hb1 & _ & _).
  apply (handle_ok_routed n) in H as (j & r & Hr' & Hat & Hres & ->); [|done].
  assert (j = i) as -> by congruence.
  destruct (request_event r d) as [r' res] eqn:Ev. simpl in *. subst res.
  pose proof (route_lt _ _ _ Hr) as Hi.
  unfold done_count at 1. simpl. rewrite length_insert.
  pose proof (request_event_done _ _ _ _ Ev) as Hd.
  assert (forall k, k <> i ->
            done_at st k = true <->
            done_at (store_request i r' (inr fr) st) k = true) as Hagree.
  { intros k Hk. unfold done_at. by rewrite request_at_store_ne. }
  assert (done_at (store_request i r' (inr fr) st) i = request_done r')
    as Hi'.
  { unfold done_at. by rewrite (request_at_store_eq n). }
  destruct fr as [x|].
  - rewrite (filter_length_flip (λ k, done_at st k = true)
               (λ k, done_at (store_request i r' (inr (Some x)) st) k = true)
               i);
      [ fold (done_count st); lia | apply NoDup_seq | apply elem_of_seq; lia
      | by rewrite Hlive | rewrite Hi'; apply Hd; eauto | done ].
  - rewrite (filter_length_agree (λ k, done_at st k = true)
               (λ k, done_at (store_request i r' (inr None) st) k = true));
      [ fold (done_count st); lia |].
    intros k _. destruct (decide (k = i)) as [->|Hk]; [|by apply Hagree].
    rewrite Hi', Hlive. split; [done|].
    intros Hq. apply Hd in Hq as [? ?]. done.
Qed.

Lemma callback_live_count n evs : forall st st',
  batch_of n st ->
  request_stream_callback st evs = (st', None) ->
  only_live st evs = true ->
  num_finished_requests st = done_count st ->
  num_finished_requests st' = done_count st'.
Proof.
  induction evs as [|d evs IH]; intros st st' Hb; simpl.
  - by intros [= <-].
  - destruct (handle_delta_output st d) as [st1 [f|fr]] eqn:E; [done|].
    intros Hrun [Hl1 Hl2]%andb_true_iff Hc.
    pose proof (handle_batch_of n st d Hb) as Hb1.
    rewrite E in Hb1. simpl in *.
    apply (IH st1 st' Hb1 Hrun Hl2).
    destruct Hb as (Ho & Hb').
    destruct (handle_ok_routed n st d st1 fr) as (i & r & Hr & _);
      [done|done|].
    rewrite Ho, Hr in Hl1. apply negb_true_iff in Hl1.
    by eapply (handle_live_count n st d st1 fr i).
Qed.

(** C2 (amended): across a callback delivery the count of finished
    requests never decreases and grows by at most one per event; when no
    event is addressed to a request that is already Done the count is the
    number of Done requests, hence at most N; and the driving loop exits
    exactly when the count equals N. *)
Theorem termination_accounting n st evs st' res fuel w :
  batch_of n st ->
  request_stream_callback st evs = (st', res) ->
  (num_finished_requests st <= num_finished_requests st'
     <= num_finished_requests st + length evs)%nat /\
  (res = None -> only_live st evs = true ->
   num_finished_requests st = done_count st ->
   num_finished_requests st' = done_count st' /\
   (num_finished_requests st' <= n)%nat) /\
  (forall st'' w'', drive fuel n st' w = (Returned st'', w'') ->
                    num_finished_requests st'' = n) /\
  (num_finished_requests st' = n -> drive fuel n st' w = (Returned st', w)).
Proof.
  intros Hb Hrun. split; [|split; [|split]].
  - pose proof (callback_count evs st) as H. by rewrite Hrun in H.
  - intros -> Hlive Hc.
    pose proof (callback_batch_of n evs st Hb) as Hb'.
    rewrite Hrun in Hb'. simpl in Hb'. destruct Hb' as (Ho & _).
    assert (num_finished_requests st' = done_count st') as Hc'
      by by eapply callback_live_count.
    split; [done|]. rewrite Hc', <- Ho. apply done_count_le.
  - intros st'' w''. apply drive_returned.
  - intros <-. apply drive_exit.
Qed.

(** *** Text search *)

Lemma prefixb_app p r : prefixb p (p ++ r) = true.
Proof.
  induction p as [|a p IH]; simpl; [done|].
  by rewrite N.eqb_refl, IH.
Qed.

Lemma prefixb_true p : forall t,
  prefixb p t = true -> t = p ++ drop (length p) t.
Proof.
  induction p as [|a p IH]; intros [|b t]; simpl; try done.
  intros [Hab Hp]%andb_true_iff. apply N.eqb_eq in Hab as ->.
  f_equal. by apply IH.
Qed.

Lemma prefixb_length p t : prefixb p t = true -> (length p <= length t)%nat.
Proof.
  intros H%prefixb_true. rewrite H, length_app. lia.
Qed.

Lemma prefixb_take p t : prefixb p t = true -> take (length p) t = p.
Proof.
  intros H%prefixb_true. rewrite H. by rewrite take_app_length.
Qed.

Lemma prefixb_same_length p : forall t,
  prefixb p t = true -> (length t <= length p)%nat -> prefixb t p = true.
Proof.
  induction p as [|a p IH]; intros [|b t]; simpl; try done; try lia.
  intros [Hab Hp]%andb_true_iff Hl. apply N.eqb_eq in Hab as ->.
  rewrite N.eqb_refl. simpl. apply IH; [done|lia].
Qed.

Lemma compatb_app a : forall s d,
  compatb a s = false -> compatb (a ++ d) s = false.
Proof.
  unfold compatb.
  induction a as [|x a IH]; intros [|y s] d; simpl; try done.
  rewrite (N.eqb_sym y x). destruct (N.eqb x y); simpl; [|done].
  apply IH.
Qed.

Lemma stop_here_false S t s :
  stop_here S t = false -> In s S -> prefixb s t = false.
Proof.
  unfold stop_here. intros H Hin.
  destruct (prefixb s t) eqn:E; [|done].
  assert (existsb (λ s, prefixb s t) S = true) as H'
    by (apply existsb_exists; eauto).
  congruence.
Qed.

Lemma stop_here_true S t :
  stop_here S t = true -> exists s, In s S /\ prefixb s t = true.
Proof. unfold stop_here. intros H. by apply existsb_exists in H. Qed.

Lemma first_stop_None S t :
  first_stop S t = None -> forall i, stop_here S (drop i t) = false.
Proof.
  induction t as [|a t IH]; simpl.
  - destruct (stop_here S []) eqn:E; [done|]. intros _ i. by rewrite drop_nil.
  - destruct (stop_here S (a :: t)) eqn:E; [done|].
    destruct (first_stop S t) eqn:E'; [done|].
    intros _ [|i]; simpl; [done|]. by apply IH.
Qed.

Lemma first_stop_Some S t : forall k,
  first_stop S t = Some k ->
  stop_here S (drop k t) = true /\ (k <= length t)%nat /\
  forall i, (i < k)%nat -> stop_here S (drop i t) = false.
Proof.
  induction t as [|a t IH]; intros k; simpl.
  - destruct (stop_here S []) eqn:E; [|done].
    intros [= <-]. simpl. split; [done|]. split; [lia|]. intros; lia.
  - destruct (stop_here S (a :: t)) eqn:E.
    + intros [= <-]. simpl. split; [done|]. split; [lia|]. intros; lia.
    + destruct (first_stop S t) as [k'|] eqn:E'; [|done].
      intros [= <-]. destruct (IH k' eq_refl) as (H1 & H2 & H3).
      simpl. split; [done|]. split; [lia|].
      intros [|i] Hi; simpl; [done|]. apply H3. lia.
Qed.

Lemma hold_from_le S t : (hold_from S t <= length t)%nat.
Proof.
  induction t as [|a t IH]; simpl.
  - by destruct (existsb _ S).
  - destruct (existsb _ S); simpl; lia.
Qed.

Lemma hold_from_min S t : forall i s,
  (i < hold_from S t)%nat -> In s S -> proper_prefixb (drop i t) s = false.
Proof.
  induction t as [|a t IH]; intros i s; simpl.
  - destruct (existsb _ S); lia.
  - destruct (existsb (proper_prefixb (a :: t)) S) eqn:E; [lia|].
    intros Hi Hin. destruct i as [|i]; simpl.
    + destruct (proper_prefixb (a :: t) s) eqn:E'; [|done].
      assert (existsb (proper_prefixb (a :: t)) S = true) as H'
        by (apply existsb_exists; eauto).
      congruence.
    + apply IH; [lia|done].
Qed.

Lemma occurs_at_prefixb S T k s :
  occurs_at S T k s -> In s S /\ prefixb s (drop k T) = true.
Proof.
  intros (Hin & Hl & Ht). split; [done|].
  rewrite <- (take_drop (length s) (drop k T)), Ht. apply prefixb_app.
Qed.

Lemma prefixb_occurs_at S T k s :
  In s S -> (k <= length T)%nat -> prefixb s (drop k T) = true ->
  occurs_at S T k s.
Proof.
  intros Hin Hk Hp. split; [done|].
  pose proof (prefixb_length _ _ Hp) as Hl. rewrite length_drop in Hl.
  split; [lia|]. by apply prefixb_take.
Qed.

Lemma occurs_at_prefix S T c k s :
  occurs_at S (take c T) k s -> occurs_at S T k s.
Proof.
  intros (Hin & Hl & Ht). rewrite length_take in Hl.
  split; [done|]. split; [lia|].
  rewrite skipn_firstn_comm, take_take in Ht.
  by replace (length s `min` (c - k))%nat with (length s) in Ht by lia.
Qed.

Lemma occurs_at_within S T c k s :
  occurs_at S T k s -> (k + length s <= c)%nat -> occurs_at S (take c T) k s.
Proof.
  intros (Hin & Hl & Ht) Hc.
  split; [done|]. split; [rewrite length_take; lia|].
  rewrite skipn_firstn_comm, take_take.
  by replace (length s `min` (c - k))%nat with (length s) by lia.
Qed.

(** *** Request ids out and back *)

Lemma ascii_char_ascii (c : N) : (c < 127)%N -> ascii_char c = Some c.
Proof. unfold ascii_char. by intros ->%N.ltb_lt. Qed.

Lemma ascii_form_ascii (s : text) :
  Forall (λ c, (c < 127)%N) s -> ascii_form s = Some s.
Proof.
  unfold ascii_form. induction 1 as [|c s Hc _ IH]; [done|].
  change (mapM ascii_char (c :: s)) with
    (y ← ascii_char c; k ← mapM ascii_char s; mret (y :: k)).
  by rewrite (ascii_char_ascii c Hc), IH.
Qed.

Lemma lstrip_no_space (s : text) :
  Forall (λ c, is_space c = false) s -> lstrip s = s.
Proof. intros H. destruct H as [|c s Hc _]; simpl; [done|]. by rewrite Hc. Qed.

Lemma strip_no_space (s : text) :
  Forall (λ c, is_space c = false) s -> strip s = s.
Proof.
  intros H. unfold strip. rewrite (lstrip_no_space s H).
  rewrite lstrip_no_space; [apply rev_involutive|].
  apply Forall_forall. intros c Hc. rewrite Forall_forall in H. apply H.
  apply list_elem_of_In. apply list_elem_of_In in Hc. by apply in_rev.
Qed.

Lemma uint_digits (d : Decimal.uint) :
  Forall plain_digit (txt (NilEmpty.string_of_uint d)).
Proof.
  induction d; simpl; constructor; try done; unfold plain_digit; simpl; lia.
Qed.

Lemma digit_count_le (s : text) : digit_count s <= Z.of_nat (length s).
Proof.
  unfold digit_count. apply inj_le.
  apply (length_filter (λ c : N, is_Some (digit_val c))).
Qed.

Lemma parse_digits_uint (d : Decimal.uint) : forall acc b,
  d <> Decimal.Nil \/ b = true ->
  parse_digits (Z.of_nat acc) b (txt (NilEmpty.string_of_uint d)) =
  Some (Z.of_nat (Nat.of_uint_acc d acc)).
Proof.
  induction d; intros acc b Hb; simpl.
  1: { destruct Hb as [? | ->]; done. }
  all: match goal with
       | |- parse_digits ?z true _ =
            Some (Z.of_nat (Nat.of_uint_acc _ ?a)) =>
           replace z with (Z.of_nat a) by (rewrite Nat.tail_mul_spec; lia)
       end.
  all: apply IHd; by right.
Qed.

Lemma py_int_py_str (n : nat) :
  str_raises n = false -> py_int (py_str n) = Some (Z.of_nat n).
Proof.
  unfold str_raises, py_int, py_str. intros Hfit. apply Z.ltb_ge in Hfit.
  pose proof (uint_digits (Nat.to_uint n)) as Hd.
  rewrite ascii_form_ascii
    by (eapply Forall_impl; [exact Hd|]; unfold plain_digit; intros c ?; lia).
  cbn [mbind option_bind].
  rewrite strip_no_space
    by (eapply Forall_impl; [exact Hd|]; unfold plain_digit, is_space;
        intros c ?; apply orb_false_iff; split;
        [apply andb_false_iff; right; apply N.leb_gt; lia
        |apply N.eqb_neq; lia]).
  assert (Nat.to_uint n <> Decimal.Nil) as Hne.
  { intros H. pose proof (DecimalNat.Unsigned.of_to n) as Hn.
    rewrite H in Hn. simpl in Hn. subst n. done. }
  pose proof (parse_digits_uint (Nat.to_uint n) 0%nat false (or_introl Hne))
    as Hp.
  change (Nat.of_uint_acc (Nat.to_uint n) 0) with
    (Nat.of_uint (Nat.to_uint n)) in Hp.
  rewrite DecimalNat.Unsigned.of_to in Hp. simpl Z.of_nat in Hp.
  pose proof (digit_count_le (txt (NilEmpty.string_of_uint (Nat.to_uint n))))
    as Hc.
  destruct (txt (NilEmpty.string_of_uint (Nat.to_uint n))) as [|c r] eqn:E.
  { destruct (Nat.to_uint n); done. }
  apply Forall_cons in Hd as [Hd _]. unfold plain_digit in Hd.
  change (chr "-") with 45%N. change (chr "+") with 43%N.
  replace (c =? 45)%N with false by (symmetry; apply N.eqb_neq; lia).
  replace (c =? 43)%N with false by (symmetry; apply N.eqb_neq; lia).
  unfold read_digits.
  replace (int_max_str_digits <? digit_count (c :: r)) with false
    by (symmetry; apply Z.ltb_ge; lia).
  exact Hp.
Qed.

Lemma py_index_nat n i : (i < n)%nat -> py_index n (Z.of_nat i) = Some i.
Proof.
  intros Hi. unfold py_index.
  destruct ((0 <=? Z.of_nat i) && (Z.of_nat i <? Z.of_nat n)) eqn:E.
  - by rewrite Nat2Z.id.
  - apply andb_false_iff in E as [E|E]; lia.
Qed.

Lemma requests_from_lookup pairs : forall k i p cfg,
  pairs !! i = Some (p, cfg) ->
  requests_from k pairs !! i = Some (request_for (k + i) p cfg).
Proof.
  induction pairs as [|[q c] rest IH]; intros k i p cfg; [done|].
  destruct i as [|i]; simpl.
  - intros [= -> ->]. by rewrite Nat.add_0_r.
  - intros H. rewrite (IH (Datatypes.S k) i p cfg H).
    by replace (Datatypes.S k + i)%nat with (k + Datatypes.S i)%nat by lia.
Qed.

Lemma generate_request prompts gc fuel w outs w' i p cfg :
  generate prompts gc fuel w = (Returned outs, w') ->
  promoted prompts !! i = Some p ->
  configs_of prompts gc !! i = Some cfg ->
  added_requests (since w w') !! i = Some (request_for i p cfg).
Proof.
  intros Hgen Hp Hcfg.
  assert (promoted prompts <> []) as Hne by (by destruct (promoted prompts)).
  rewrite (generate_added _ _ _ _ _ _ Hne Hgen).
  apply (requests_from_lookup _ 0 i).
  apply lookup_zip_with_Some. eauto.
Qed.

(** X1: the request [generate] submits for the prompt at position [i]
    carries the id [str(i)], the prompt as text when it is a string and as
    token data otherwise, and the config in force at position [i]. *)
Theorem requests_follow_prompts prompts gc fuel w outs w' i p cfg :
  generate prompts gc fuel w = (Returned outs, w') ->
  promoted prompts !! i = Some p ->
  configs_of prompts gc !! i = Some cfg ->
  added_requests (since w w') !! i =
  Some {| request_id := py_str i;
          inputs := match p with
                    | VStr s => TextData s
                    | _ => TokenData p
                    end;
          generation_config := cfg |}.
Proof. apply generate_request. Qed.

(** X2: an event that carries back the id of the request submitted at
    position [i] is routed to the per-request state at position [i]:
    [int(str(i))] is [i] and lies within the batch. *)
Theorem request_id_round_trip prompts gc fuel w outs w' i r d :
  generate prompts gc fuel w = (Returned outs, w') ->
  added_requests (since w w') !! i = Some r ->
  rso_request_id d = request_id r ->
  route (length (promoted prompts)) d = Some i.
Proof.
  intros Hgen Hr Hd.
  destruct (decide (promoted prompts = [])) as [He|Hne].
  { rewrite generate_cases in Hgen.
    destruct prompts as [s|z|[|[] l]|]; try done.
    injection Hgen as _ <-. unfold since in Hr. by rewrite drop_all in Hr. }
  pose proof (generate_returned _ _ _ _ _ _ Hne Hgen) as (Hlen & _).
  assert (i < length (promoted prompts))%nat as Hi.
  { apply lookup_lt_Some in Hr.
    rewrite (generate_added _ _ _ _ _ _ Hne Hgen) in Hr.
    rewrite requests_from_length, length_zip_with in Hr. lia. }
  destruct (lookup_lt_is_Some_2 (promoted prompts) i Hi) as [p Hp].
  destruct (lookup_lt_is_Some_2 (configs_of prompts gc) i) as [cfg Hcfg];
    [lia|].
  rewrite (generate_request _ _ _ _ _ _ _ _ _ Hgen Hp Hcfg) in Hr.
  injection Hr as <-. unfold route. rewrite Hd. simpl.
  rewrite py_int_py_str by exact (generate_ids _ _ _ _ _ _ i Hgen Hi).
  simpl. by apply py_index_nat.
Qed.

(** X3: a single generation config is shared by all prompts: every
    request a returning call has submitted carries that config. *)
Theorem shared_config_reaches_every_request prompts c fuel w outs w' :
  generate prompts (OneConfig c) fuel w = (Returned outs, w') ->
  Forall (λ r, generation_config r = c) (added_requests (since w w')).
Proof.
  intros Hgen. apply Forall_lookup. intros i r Hr.
  destruct (decide (promoted prompts = [])) as [He|Hne].
  { rewrite generate_cases in Hgen.
    destruct prompts as [s|z|[|[] l]|]; try done.
    injection Hgen as _ <-. unfold since in Hr. by rewrite drop_all in Hr. }
  assert (i < length (promoted prompts))%nat as Hi.
  { apply lookup_lt_Some in Hr.
    rewrite (generate_added _ _ _ _ _ _ Hne Hgen) in Hr.
    rewrite requests_from_length, length_zip_with in Hr. lia. }
  destruct (lookup_lt_is_Some_2 (promoted prompts) i Hi) as [p Hp].
  assert (configs_of prompts (OneConfig c) !! i = Some c) as Hcfg
    by (simpl; by apply lookup_replicate_2).
  rewrite (generate_request _ _ _ _ _ _ _ _ _ Hgen Hp Hcfg) in Hr.
  by injection Hr as <-.
Qed.

(** *** The order of a call *)

Lemma loop_trace_no_requests tr :
  Forall (λ x, is_step_or_deliver x = true) tr -> added_requests tr = [].
Proof.
  induction 1 as [|x tr Hx _ IH]; [done|]. by destruct x.
Qed.

Lemma deliver_trace ds : forall st (w : World EState),
  exists tr, trace (deliver st ds w).1.2 = trace w ++ tr /\
             Forall (λ x, is_step_or_deliver x = true) tr.
Proof.
  induction ds as [|d ds IH]; intros st w; simpl.
  - exists []. by rewrite app_nil_r.
  - destruct (invoke _ st d) as [st' [f|]]; simpl.
    + exists [Deliver d]. split; [done|]. by repeat constructor.
    + destruct (IH st' (record (Deliver d) w)) as (tr & -> & Htr).
      exists (Deliver d :: tr). simpl. rewrite <- app_assoc.
      split; [done|]. by constructor.
Qed.

Lemma step_trace st (w : World EState) :
  exists tr, trace (step st w).1.2 = trace w ++ Step :: tr /\
             Forall (λ x, is_step_or_deliver x = true) tr.
Proof.
  unfold step. destruct (engine_step _) as [[s ds] err].
  match goal with |- context [deliver st ds ?w0] =>
    destruct (deliver_trace ds st w0) as (tr & Htr & Hsd);
    destruct (deliver st ds w0) as [[st' w'] [f|]] end;
    simpl in *; exists tr; rewrite Htr, <- app_assoc; done.
Qed.

Lemma drive_trace fuel n : forall st (w : World EState),
  exists tr, trace (drive fuel n st w).2 = trace w ++ tr /\
             Forall (λ x, is_step_or_deliver x = true) tr /\
             (forall st', (drive fuel n st w).1 = Returned st' ->
                          num_finished_requests st <> n ->
                          exists tr', tr = Step :: tr').
Proof.
  induction fuel as [|fuel IH]; intros st w; simpl.
  - destruct (_ =? _)%nat eqn:E; simpl.
    + exists []. rewrite app_nil_r. split; [done|]. split; [done|].
      intros st' _ Hn. by apply Nat.eqb_eq in E.
    + exists []. rewrite app_nil_r. done.
  - destruct (_ =? _)%nat eqn:E; simpl.
    { exists []. rewrite app_nil_r. split; [done|]. split; [done|].
      intros st' _ Hn. by apply Nat.eqb_eq in E. }
    destruct (step_trace st w) as (tr1 & Htr1 & Hsd1).
    destruct (step st w) as [[st1 w1] [f|]]; simpl in *.
    + exists (Step :: tr1). split; [done|]. split; [by constructor|]. done.
    + destruct (IH st1 w1) as (tr2 & Htr2 & Hsd2 & _).
      exists (Step :: tr1 ++ tr2). rewrite Htr2, Htr1, <- app_assoc.
      split; [done|]. split; [|by eauto].
      constructor; [done|]. by apply Forall_app.
Qed.

Lemma add_request_trace r (w : World EState) :
  trace (add_request r w).1 = trace w ++ [AddRequest r].
Proof. unfold add_request. by destruct (engine_add_request _ _). Qed.

Lemma submit_trace pairs : forall req_id (w : World EState),
  exists k, (k <= length pairs)%nat /\
    trace (submit req_id pairs w).1 =
      trace w ++ map AddRequest (take k (requests_from req_id pairs)) /\
    ((submit req_id pairs w).2 = None -> k = length pairs).
Proof.
  induction pairs as [|[p c] rest IH]; intros req_id w; simpl.
  - exists 0%nat. rewrite app_nil_r. done.
  - destruct (str_raises req_id).
    { exists 0%nat. simpl. rewrite app_nil_r. split; [lia|]. done. }
    match goal with |- context [add_request ?r w] =>
      pose proof (add_request_trace r w) as Ha;
      destruct (add_request r w) as [w1 [f|]] end; simpl in *.
    + exists 1%nat. simpl. rewrite ?take_0. split; [lia|]. done.
    + destruct (IH (Datatypes.S req_id) w1) as (k & Hk & -> & Hall).
      exists (Datatypes.S k). simpl. rewrite Ha, <- app_assoc.
      split; [lia|]. split; [done|]. intros H. by rewrite Hall.
Qed.

(** What a call on at least one prompt with matching config count has
    exchanged with the engine, whatever its outcome. *)
Lemma generate_trace prompts gc fuel w :
  promoted prompts <> [] ->
  length (configs_of prompts gc) = length (promoted prompts) ->
  let reqs :=
    requests_from 0 (zip (promoted prompts) (configs_of prompts gc)) in
  exists k tr tail,
    since w (generate prompts gc fuel w).2 =
      [GetCallback; SetCallback GenerateCallback] ++
      map AddRequest (take k reqs) ++ tr ++ tail /\
    Forall (λ x, is_step_or_deliver x = true) tr /\
    (tr <> [] -> take k reqs = reqs) /\
    (tail = [] \/ tail = [SetCallback (callback w)]).
Proof.
  intros Hne Hlen reqs.
  rewrite generate_batch_run by done. cbv zeta. fold reqs.
  match goal with |- context [submit 0 ?ps ?w1] =>
    destruct (submit_trace ps 0 w1) as (k & Hk & Htr & Hall);
    destruct (submit 0 ps w1) as [w2 [f|]] eqn:Es end; simpl in *.
  - exists k, [], []. split; [|split; [constructor|split; [done|by left]]].
    apply since_app. rewrite Htr. simpl. rewrite <- !app_assoc. simpl.
    by rewrite app_nil_r.
  - specialize (Hall eq_refl). subst k. fold reqs in Htr.
    assert (take (length (zip (promoted prompts) (configs_of prompts gc)))
              reqs = reqs) as Hfull.
    { apply take_ge. unfold reqs. by rewrite requests_from_length. }
    match goal with |- context [drive fuel ?n ?st w2] =>
      destruct (drive_trace fuel n st w2) as (tr & Htr3 & Hsd & _);
      destruct (drive fuel n st w2) as [[st'|f|] w3] end; simpl in *.
    + exists (length (zip (promoted prompts) (configs_of prompts gc))), tr,
        [SetCallback (callback w)].
      split; [|split; [done|split; [done|by right]]]. apply since_app. simpl.
      rewrite Htr3, Htr. simpl. by rewrite <- !app_assoc.
    + exists (length (zip (promoted prompts) (configs_of prompts gc))), tr, [].
      split; [|split; [done|split; [done|by left]]].
      apply since_app.
      rewrite Htr3, Htr. simpl. by rewrite <- !app_assoc, app_nil_r.
    + exists (length (zip (promoted prompts) (configs_of prompts gc))), tr, [].
      split; [|split; [done|split; [done|by left]]].
      apply since_app.
      rewrite Htr3, Htr. simpl. by rewrite <- !app_assoc, app_nil_r.
Qed.

Lemma split_at_step (A B pre post : list Interaction) :
  pre ++ Step :: post = A ++ B ->
  Forall (λ x, x <> Step) A ->
  exists B1, pre = A ++ B1 /\ B = B1 ++ Step :: post.
Proof.
  revert pre. induction A as [|a A IH]; intros pre H HA; simpl in *.
  - by exists pre.
  - apply Forall_cons in HA as [Ha HA].
    destruct pre as [|x pre]; simpl in H.
    + injection H as <- _. done.
    + injection H as -> H. destruct (IH pre H HA) as (B1 & -> & ->).
      by exists B1.
Qed.

Lemma no_interaction_without_prompts prompts gc fuel w :
  promoted prompts = [] -> (generate prompts gc fuel w).2 = w.
Proof.
  intros He. rewrite generate_cases.
  destruct prompts as [s|z|[|[] l]|]; done.
Qed.

(** X4: [generate] never steps the engine before every one of the N
    requests has been submitted: whatever the outcome of the call, all N
    [add_request] calls precede the first [step], and none follows it. *)
Theorem no_step_before_all_submitted prompts gc fuel w pre post :
  since w (generate prompts gc fuel w).2 = pre ++ Step :: post ->
  added_requests pre =
    requests_from 0 (zip (promoted prompts) (configs_of prompts gc)) /\
  added_requests post = [].
Proof.
  intros Hs.
  destruct (decide (promoted prompts = [])) as [He|Hne].
  { rewrite no_interaction_without_prompts in Hs by done.
    unfold since in Hs. rewrite drop_all in Hs. by destruct pre. }
  destruct (decide (length (configs_of prompts gc) =
                    length (promoted prompts))) as [Hlen|Hlen].
  2: { destruct gc as [c|l]; simpl in Hlen.
       { by rewrite length_replicate in Hlen. }
       rewrite generate_mismatch in Hs by done. simpl in Hs.
       unfold since in Hs. rewrite drop_all in Hs. by destruct pre. }
  destruct (generate_trace prompts gc fuel w Hne Hlen)
    as (k & tr & tail & Htr & Hsd & Hfull & Htail).
  rewrite Hs in Htr. rewrite app_assoc in Htr.
  apply split_at_step in Htr as (B1 & -> & HB).
  2: { apply Forall_app. split; [by repeat constructor|].
       apply Forall_forall. intros x Hx%list_elem_of_fmap.
       by destruct Hx as (r & -> & _). }
  assert (tr <> []) as Hnil.
  { intros ->. simpl in HB. destruct Htail as [->| ->].
    - by destruct B1.
    - destruct B1 as [|b [|? ?]]; done. }
  rewrite (Hfull Hnil) in *.
  assert (added_requests (tr ++ tail) = []) as Hno.
  { rewrite added_requests_app, (loop_trace_no_requests tr Hsd).
    by destruct Htail as [->| ->]. }
  rewrite HB, added_requests_app in Hno. simpl in Hno.
  apply app_eq_nil in Hno as [Hn1 Hn2].
  rewrite !added_requests_app, added_requests_map, Hn1. simpl.
  by rewrite app_nil_r.
Qed.

(** X5: a call on at least one prompt that returns has talked to the
    engine in exactly this order: read the callback slot, install the
    batch callback, submit the N requests, step at least once, receiving
    deliveries only inside steps, and finally write the saved callback
    back. *)
Theorem returning_call_protocol prompts gc fuel w outs w' :
  promoted prompts <> [] ->
  generate prompts gc fuel w = (Returned outs, w') ->
  exists tr,
    since w w' =
      [GetCallback; SetCallback GenerateCallback] ++
      map AddRequest
        (requests_from 0 (zip (promoted prompts) (configs_of prompts gc))) ++
      Step :: tr ++ [SetCallback (callback w)] /\
    Forall (λ x, is_step_or_deliver x = true) tr.
Proof.
  intros Hne Hgen.
  pose proof (generate_returned _ _ _ _ _ _ Hne Hgen) as (Hlen & _).
  rewrite generate_batch_run in Hgen by done. cbv zeta in Hgen.
  destruct (submit _ _ _) as [w2 [f|]] eqn:Es; [done|].
  apply submit_ok in Es as [Htr2 _].
  match type of Hgen with context [drive fuel ?n ?st w2] =>
    destruct (drive_trace fuel n st w2) as (tr & Htr3 & Hsd & Hstep);
    destruct (drive fuel n st w2) as [[st'| |] w3] end; [|done|done].
  injection Hgen as _ <-. simpl in *.
  destruct (Hstep st' eq_refl) as [tr' ->].
  { intros H. destruct (promoted prompts); simpl in *; [done|lia]. }
  exists tr'. apply Forall_cons in Hsd as [_ Hsd]. split; [|done].
  apply since_app. simpl. rewrite Htr3, Htr2. simpl.
  by rewrite <- !app_assoc.
Qed.

(** X6: when [generate] raises an [AssertionError] the engine has not
    been touched: the assertions on the prompts and on the config count
    are the only ones, and both come before the first interaction. *)
Theorem assertion_means_untouched_engine prompts gc fuel w msg w' :
  generate prompts gc fuel w = (Raised (AssertionError msg), w') ->
  w' = w /\ (msg = prompts_assertion \/ msg = config_assertion).
Proof.
  intros Hgen. split; [by eapply generate_assertion|].
  destruct (decide (promoted prompts = [])) as [He|Hne].
  { rewrite generate_cases in Hgen.
    destruct prompts as [s|z|[|[] l]|]; try done; injection Hgen as <-;
      by left. }
  destruct (decide (length (configs_of prompts gc) =
                    length (promoted prompts))) as [Hlen|Hlen].
  - rewrite generate_batch_run in Hgen by done. cbv zeta in Hgen.
    destruct (submit _ _ _) as [w2 [f2|]] eqn:Es.
    + injection Hgen as -> _. by apply submit_fault in Es.
    + destruct (drive _ _ _ _) as [[st'|f3|] w3] eqn:Ed; try done.
      injection Hgen as -> _. by apply drive_fault in Ed.
  - destruct gc as [c|l]; simpl in Hlen.
    { by rewrite length_replicate in Hlen. }
    rewrite generate_mismatch in Hgen by done. injection Hgen as <-.
    by right.
Qed.

(** X7: when a call ends in any other way than by returning or by one of
    its assertions (a fault during submission or the step loop, or a loop
    that is still running), the engine's callback slot holds the batch
    callback of that call. *)
Theorem callback_stays_installed_otherwise prompts gc fuel w o w' :
  generate prompts gc fuel w = (o, w') ->
  ~ clean_exit o ->
  callback w' = GenerateCallback.
Proof.
  intros Hgen Hexit.
  destruct (decide (promoted prompts = [])) as [He|Hne].
  { rewrite generate_cases in Hgen.
    destruct prompts as [s|z|[|[] l]|]; try done; injection Hgen as <- _;
      by destruct Hexit. }
  destruct (decide (length (configs_of prompts gc) =
                    length (promoted prompts))) as [Hlen|Hlen].
  - rewrite generate_batch_run in Hgen by done. cbv zeta in Hgen.
    match type of Hgen with context [submit 0 ?ps ?w1] =>
      pose proof (submit_callback ps 0 w1) as Hcb;
      destruct (submit 0 ps w1) as [w2 [f|]] end; simpl in Hcb.
    + by injection Hgen as _ <-.
    + match type of Hgen with context [drive fuel ?n ?st w2] =>
        pose proof (drive_callback fuel n st w2) as Hcb3;
        destruct (drive fuel n st w2) as [[st'|f3|] w3] end;
        simpl in Hcb3; injection Hgen as <- <-.
      * by destruct Hexit.
      * congruence.
      * congruence.
  - destruct gc as [c|l]; simpl in Hlen.
    { by rewrite length_replicate in Hlen. }
    rewrite generate_mismatch in Hgen by done. injection Hgen as <- _.
    by destruct Hexit.
Qed.

(** *** What one event can and cannot change *)

Lemma request_event_output r d :
  exists delta, rq_output (request_event r d).1 = rq_output r ++ delta.
Proof.
  unfold request_event.
  destruct (feed _ _ _ _) as [[ts' sh'] [f|[delta fr]]]; simpl.
  - exists []. by rewrite app_nil_r.
  - by exists delta.
Qed.

Lemma handle_untouched n st d j :
  batch_of n st -> route n d <> Some j ->
  request_at (handle_delta_output st d).1 j = request_at st j.
Proof.
  intros Hb Hr. destruct (route n d) as [i|] eqn:Er.
  - destruct (request_at_is_Some n st i Hb (route_lt _ _ _ Er)) as [r Hat].
    rewrite (handle_routed n st d i r) by done. simpl.
    apply request_at_store_ne. congruence.
  - by rewrite (handle_unrouted n st d).
Qed.

(** X8: an event changes the detokenizer, the matcher and the output of
    the one request it is addressed to and of no other; an event that is
    addressed to no request changes nothing. *)
Theorem event_touches_one_request n st d j :
  batch_of n st ->
  route n d <> Some j ->
  request_at (handle_delta_output st d).1 j = request_at st j /\
  (route n d = None -> (handle_delta_output st d).1 = st).
Proof.
  intros Hb Hr. split; [by apply (handle_untouched n)|].
  intros Hnone. by rewrite (handle_unrouted n st d).
Qed.

Lemma handle_output_grows n st d j out :
  batch_of n st -> outputs st !! j = Some out ->
  exists delta, outputs (handle_delta_output st d).1 !! j = Some (out ++ delta).
Proof.
  intros Hb Hout. destruct (route n d) as [i|] eqn:Er.
  - destruct (request_at_is_Some n st i Hb (route_lt _ _ _ Er)) as [r Hat].
    rewrite (handle_routed n st d i r) by done. simpl.
    destruct (decide (i = j)) as [->|Hne].
    + destruct (request_event_output r d) as [delta Hd].
      apply request_at_lookups in Hat as (Ho & _).
      assert (rq_output r = out) as <- by congruence.
      exists delta. rewrite list_lookup_insert_eq; [by rewrite Hd|].
      by eapply lookup_lt_Some.
    + exists []. rewrite list_lookup_insert_ne by done.
      by rewrite app_nil_r.
  - rewrite (handle_unrouted n st d) by done. simpl.
    exists []. by rewrite app_nil_r.
Qed.

(** X9: the callback only ever appends to a request's output: whatever
    events a delivery holds, and whether or not it ends in a fault, every
    output afterwards extends the output before. *)
Theorem outputs_only_grow n evs : forall st j out,
  batch_of n st ->
  outputs st !! j = Some out ->
  exists delta,
    outputs (request_stream_callback st evs).1 !! j = Some (out ++ delta).
Proof.
  induction evs as [|d evs IH]; intros st j out Hb Hout; simpl.
  - exists []. by rewrite app_nil_r.
  - destruct (handle_output_grows n st d j out Hb Hout) as [d1 H1].
    pose proof (handle_batch_of n st d Hb) as Hb1.
    destruct (handle_delta_output st d) as [st1 [f|fr]]; simpl in *.
    + by exists d1.
    + destruct (IH st1 j _ Hb1 H1) as [d2 H2].
      exists (d1 ++ d2). by rewrite app_assoc.
Qed.

(** X10: an event whose request id [int] does not read makes the
    callback raise [ValueError] before anything is looked up: the captured
    variables are as the events before it left them and the rest of the
    delivery is not processed. *)
Theorem malformed_id_rejected st pre d post st1 :
  request_stream_callback st pre = (st1, None) ->
  py_int (rso_request_id d) = None ->
  request_stream_callback st (pre ++ d :: post) = (st1, Some ValueError).
Proof.
  intros Hpre Hid. rewrite callback_app, Hpre. simpl.
  unfold handle_delta_output. by rewrite Hid.
Qed.

(** X11: how the engine groups events into deliveries does not matter to
    the callback: handling one delivery and then another is handling their
    concatenation, and once an event has faulted nothing after it is
    handled. *)
Theorem deliveries_compose st evs1 evs2 :
  request_stream_callback st (evs1 ++ evs2) =
  match request_stream_callback st evs1 with
  | (st1, None) => request_stream_callback st1 evs2
  | (st1, Some f) => (st1, Some f)
  end.
Proof.
  rewrite callback_app.
  by destruct (request_stream_callback st evs1) as [st1 [f|]].
Qed.

(** X12: a negative request id counts from the end of the batch: an event
    whose id [int] reads as [rid] in [-N .. -1] is handled exactly as the
    same event with an id read as [N + rid]. *)
Theorem negative_id_aliases n st d d' rid :
  batch_of n st ->
  py_int (rso_request_id d) = Some rid ->
  - Z.of_nat n <= rid < 0 ->
  py_int (rso_request_id d') = Some (Z.of_nat n + rid) ->
  rso_delta_tokens d' = rso_delta_tokens d ->
  rso_finish_reason d' = rso_finish_reason d ->
  handle_delta_output st d = handle_delta_output st d'.
Proof.
  intros Hb Hid Hrange Hid' Htok Hfr.
  set (i := Z.to_nat (Z.of_nat n + rid)).
  assert (route n d = Some i) as Hr
    by (unfold route; rewrite Hid; simpl; by apply py_index_negative).
  assert (route n d' = Some i) as Hr'.
  { unfold route. rewrite Hid'. simpl.
    replace (Z.of_nat n + rid) with (Z.of_nat i) by (unfold i; lia).
    apply py_index_nat. unfold i. lia. }
  destruct (request_at_is_Some n st i Hb (route_lt _ _ _ Hr)) as [r Hat].
  rewrite (handle_routed n st d i r), (handle_routed n st d' i r) by done.
  assert (request_event r d' = request_event r d) as ->
    by (unfold request_event; by rewrite Htok, Hfr).
  done.
Qed.

(** *** The detokenizer *)

(** What the design asks of the tokenizer: the first [safe_len h]
    characters of [decode h] are never revised by later tokens, and the
    stable part only grows. *)
Hypothesis safe_stable : forall h ext,
  take (safe_len h) (decode (h ++ ext)) = take (safe_len h) (decode h).
Hypothesis safe_mono : forall h ext,
  (safe_len h <= safe_len (h ++ ext))%nat.

Lemma stable_prefix h ext c :
  (c <= safe_len h)%nat -> take c (decode (h ++ ext)) = take c (decode h).
Proof.
  intros Hc. replace c with (c `min` safe_len h)%nat by lia.
  by rewrite <- !take_take, safe_stable.
Qed.

Lemma ts_put_ok t ids :
  ts_ok t ->
  exists piece t',
    ts_put t ids = inr (piece, t') /\
    ts_history t' = ts_history t ++ ids /\
    ts_ok t' /\ streamed t' = streamed t ++ piece.
Proof.
  intros [Hc Hcur]. unfold ts_put. rewrite Hc.
  eexists _, _. split; [done|]. simpl. split; [done|].
  split; [split; simpl; [done|lia]|].
  unfold streamed. simpl.
  set (X := decode (ts_history t ++ ids)).
  set (s' := safe_len (ts_history t ++ ids)).
  pose proof (safe_mono (ts_history t) ids) as Hm. fold s' in Hm.
  rewrite <- (stable_prefix (ts_history t) ids) by done. fold X.
  replace (take (ts_cursor t) X) with (take (ts_cursor t) (take s' X)).
  - by rewrite take_drop.
  - rewrite take_take. f_equal. lia.
Qed.

Lemma ts_finish_ok t :
  ts_ok t ->
  exists tail t',
    ts_finish t = inr (tail, t') /\
    ts_history t' = ts_history t /\ ts_closed t' = true /\
    streamed t ++ tail = decode (ts_history t).
Proof.
  intros [Hc Hcur]. unfold ts_finish. rewrite Hc.
  eexists _, _. split; [done|]. simpl. split; [done|]. split; [done|].
  apply take_drop.
Qed.

(** *** The matcher across chunk boundaries *)

Lemma dead_before_app S E n delta :
  dead_before S E n -> (n <= length E)%nat ->
  forall p s, (p < n)%nat -> In s S ->
              compatb (drop p (E ++ delta)) s = false.
Proof.
  intros Hd Hn p s Hp Hin. rewrite drop_app_le by lia.
  apply compatb_app. by apply Hd.
Qed.

Lemma sh_put_matching S h out E delta d' h' :
  matching S h out E ->
  sh_put h delta = (d', h') ->
  sh_finished h' = sh_finished h /\
  ((stop_triggered h' = true /\
    exists k, first_occurrence S (E ++ delta) k /\
              out ++ d' = take k (E ++ delta)) \/
   (matching S h' (out ++ d') (E ++ delta) /\
    forall p s, ~ occurs_at S (E ++ delta) p s)).
Proof.
  intros (Ht & HS & HE & Hdead). unfold sh_put. rewrite Ht, HS.
  set (buf := sh_buffer h ++ delta).
  assert (E ++ delta = out ++ buf) as HE'
    by (unfold buf; by rewrite <- HE, <- app_assoc).
  assert (length out <= length E)%nat as Hlen
    by (rewrite <- HE, length_app; lia).
  pose proof (dead_before_app S E _ delta Hdead Hlen) as Hdead'.
  assert (forall p, (length out <= p)%nat ->
            drop p (E ++ delta) = drop (p - length out) buf) as Hdrop.
  { intros p Hp. rewrite HE'. by rewrite drop_app_ge. }
  destruct (first_stop S buf) as [k0|] eqn:Ef.
  - intros [= <- <-]. simpl. split; [done|]. left. split; [done|].
    apply first_stop_Some in Ef as (Hhere & Hk0 & Hmin).
    exists (length out + k0)%nat. split; [split|].
    + apply stop_here_true in Hhere as (s & Hin & Hp).
      exists s. apply prefixb_occurs_at; [done| |].
      * rewrite HE', length_app. lia.
      * rewrite Hdrop by lia.
        by replace (length out + k0 - length out)%nat with k0 by lia.
    + intros p s' Hocc. apply occurs_at_prefixb in Hocc as [Hin Hp].
      destruct (decide (p < length out)%nat) as [Hlt|Hge].
      { pose proof (Hdead' p s' Hlt Hin) as Hc. unfold compatb in Hc.
        rewrite Hp, orb_true_r in Hc. done. }
      rewrite Hdrop in Hp by lia.
      destruct (decide (p - length out < k0)%nat) as [Hlt|]; [|lia].
      pose proof (stop_here_false _ _ _ (Hmin _ Hlt) Hin). congruence.
    + rewrite HE'. by rewrite take_app_add.
  - intros [= <- <-]. simpl. split; [done|]. right.
    pose proof (first_stop_None _ _ Ef) as Hnone.
    assert (forall p s, (p < length out + hold_from S buf)%nat ->
              In s S -> compatb (drop p (E ++ delta)) s = false) as Hd2.
    { intros p s Hp Hin.
      destruct (decide (p < length out)%nat) as [Hlt|Hge]; [by apply Hdead'|].
      rewrite Hdrop by lia. unfold compatb.
      pose proof (stop_here_false _ _ _ (Hnone (p - length out)%nat) Hin)
        as Hno.
      rewrite Hno, orb_false_r.
      destruct (prefixb (drop (p - length out) buf) s) eqn:Epre; [|done].
      pose proof (hold_from_min S buf (p - length out) s
                    ltac:(lia) Hin) as Hh.
      unfold proper_prefixb in Hh. rewrite Epre in Hh. simpl in Hh.
      apply Nat.ltb_ge in Hh.
      pose proof (prefixb_same_length _ _ Epre Hh). congruence. }
    split.
    + split; [done|]. split; [done|]. split.
      * rewrite HE', <- app_assoc. simpl. by rewrite take_drop.
      * intros p s Hp Hin. rewrite length_app, length_take in Hp.
        apply Hd2; [|done]. pose proof (hold_from_le S buf). lia.
    + intros p s Hocc. apply occurs_at_prefixb in Hocc as [Hin Hp].
      destruct (decide (p < length out)%nat) as [Hlt|Hge].
      { pose proof (Hdead' p s Hlt Hin) as Hc. unfold compatb in Hc.
        rewrite Hp, orb_true_r in Hc. done. }
      rewrite Hdrop in Hp by lia.
      pose proof (stop_here_false _ _ _ (Hnone (p - length out)%nat) Hin).
      congruence.
Qed.

Lemma sh_put_triggered h delta :
  stop_triggered h = true -> sh_put h delta = ([], h).
Proof. intros H. unfold sh_put. by rewrite H. Qed.

(** *** One request from its first event to its last *)

Lemma phase_new cfg : phase (stop_strs cfg) (new_request cfg) None.
Proof.
  apply phase_live; simpl; try done.
  - split; simpl; [done|lia].
  - intros p s Hp. simpl in Hp. lia.
Qed.

Lemma phase_step S r last d r' fr :
  phase S r last ->
  request_event r d = (r', inr fr) ->
  phase S r' fr /\
  ts_history (rq_streamer r') =
    ts_history (rq_streamer r) ++ rso_delta_tokens d.
Proof.
  destruct r as [out ts h]. unfold request_event, feed. simpl.
  intros [Hts Hfin Htrig HS Hout Hdead _
         | c k Htrig Hc Hfirst Hout _
         | Hclosed _ _ _ _]; simpl in *.
  - (* streaming *)
    destruct (ts_put_ok ts (rso_delta_tokens d) Hts)
      as (piece & ts1 & -> & Hh1 & Hts1 & Hs1).
    destruct (sh_put h piece) as [d1 sh1] eqn:Es1.
    destruct (sh_put_matching S h out (streamed ts) piece d1 sh1)
      as (Hf1 & [(Ht1 & k & Hk & Hout1) | (Hm1 & Hno1)]); [done|done| |].
    + rewrite Ht1. intros [= <- <-]. simpl. split; [|done].
      apply (phase_stopped _ _ _ (ts_cursor ts1) k); simpl; try done.
      * right. apply Hts1.
      * fold (streamed ts1). by rewrite Hs1.
      * fold (streamed ts1). by rewrite Hs1.
    + pose proof Hm1 as (Ht1 & HS1 & HE1 & Hd1). rewrite Ht1.
      destruct (rso_finish_reason d) as [reason|].
      * destruct (ts_finish_ok ts1 Hts1)
          as (tail & ts2 & -> & Hh2 & Hc2 & Hs2).
        destruct (sh_put sh1 tail) as [more sh2] eqn:Es2.
        destruct (sh_put_matching S sh1 (out ++ d1) (streamed ts1)
                    tail more sh2)
          as (Hf2 & [(Ht2 & k & Hk & Hout2) | (Hm2 & Hno2)]);
          [by rewrite Hs1|done| |].
        -- rewrite Ht2. intros [= <- <-]. simpl.
           split; [|by rewrite Hh2]. rewrite Hs2 in Hk, Hout2.
           apply (phase_stopped _ _ _
                    (length (decode (ts_history ts1))) k);
             simpl; rewrite ?Hh2, ?firstn_all; try done.
           ++ by left.
           ++ by rewrite app_assoc.
        -- pose proof Hm2 as (Ht2 & HS2 & HE2 & Hd2). rewrite Ht2.
           unfold sh_finish. rewrite Hf2, Hf1, Hfin, Ht2.
           intros [= <- <-]. simpl. split; [|by rewrite Hh2].
           apply phase_finished; simpl; rewrite ?Hh2; try done.
           ++ rewrite <- Hs2, <- HE2. by rewrite !app_assoc.
           ++ by rewrite <- Hs2.
      * intros [= <- <-]. simpl. split; [|done].
        apply phase_live; simpl; try done.
        -- congruence.
        -- by rewrite Hs1.
        -- by rewrite Hs1.
  - (* stopped by the matcher *)
    unfold ts_put. destruct (ts_closed ts) eqn:Ec; [done|].
    destruct Hc as [|Hc]; [done|].
    rewrite (sh_put_triggered h) by done. rewrite Htrig.
    intros [= <- <-]. simpl. split; [|done].
    apply (phase_stopped _ _ _ c k); simpl; try done.
    + right. pose proof (safe_mono (ts_history ts) (rso_delta_tokens d)). lia.
    + by rewrite stable_prefix.
    + by rewrite stable_prefix, app_nil_r.
  - (* flushed *)
    unfold ts_put. by rewrite Hclosed.
Qed.

Lemma tokens_of_cons d evs :
  tokens_of (d :: evs) = rso_delta_tokens d ++ tokens_of evs.
Proof. done. Qed.

Lemma phase_run S evs : forall r last r' last',
  phase S r last ->
  request_run r last evs = Some (r', last') ->
  phase S r' last' /\
  ts_history (rq_streamer r') =
    ts_history (rq_streamer r) ++ tokens_of evs.
Proof.
  induction evs as [|d evs IH]; intros r last r' last' Hp; simpl.
  - intros [= <- <-]. by rewrite app_nil_r.
  - destruct (request_event r d) as [r1 [f|fr]] eqn:Ev; [done|].
    intros Hrun. apply (phase_step S r last d r1 fr Hp) in Ev as [Hp1 Hh1].
    apply (IH _ _ _ _ Hp1) in Hrun as [Hp' Hh'].
    split; [done|]. by rewrite Hh', Hh1, tokens_of_cons, app_assoc.
Qed.

(** A request that has finished, in whose whole text a stop string
    occurs that starts first and ends first, was cut at that offset by
    its matcher. *)
Lemma phase_truncated S r last k s :
  phase S r last -> is_Some last ->
  let T := decode (ts_history (rq_streamer r)) in
  occurs_at S T k s ->
  (forall k' s', occurs_at S T k' s' ->
                 (k <= k')%nat /\ (k + length s <= k' + length s')%nat) ->
  rq_output r = take k T /\ last = Some stop_reason.
Proof.
  intros [_ _ _ _ _ _ ->
         | c k0 _ _ [[s0 Hocc0] Hmin0] Hout ->
         | _ _ _ Hno _] Hlast T Hocc Hfirst.
  - by destruct Hlast.
  - split; [|done]. fold T in Hocc0, Hmin0, Hout.
    pose proof Hocc0 as (_ & Hl0 & _). rewrite length_take in Hl0.
    destruct (Hfirst k0 s0 (occurs_at_prefix _ _ _ _ _ Hocc0)) as [H1 H2].
    assert (k0 <= k)%nat
      by (apply (Hmin0 k s), occurs_at_within; [done|lia]).
    rewrite Hout, take_take. f_equal. lia.
  - by destruct (Hno k s).
Qed.





(** C3 (amended): for a request that has finished when [generate]
    returns, with final full decoded text T, if a stop string occurs in
    T at offset k and no occurrence of a stop string in T starts or ends
    before that one does, the returned output is T[0:k] and the final
    finish reason is "stop", whatever reason the engine gave. *)
Theorem stop_truncation prompts gc fuel w outs w' i cfg k s :
  generate prompts gc fuel w = (Returned outs, w') ->
  (i < length (promoted prompts))%nat ->
  configs_of prompts gc !! i = Some cfg ->
  let evs :=
    events_for (length (promoted prompts)) i (delivered (since w w')) in
  let T := decode (tokens_of evs) in
  final_reason cfg evs <> None ->
  occurs_at (stop_strs cfg) T k s ->
  (forall k' s', occurs_at (stop_strs cfg) T k' s' ->
                 (k <= k')%nat /\ (k + length s <= k' + length s')%nat) ->
  outs !! i = Some (take k T) /\ final_reason cfg evs = Some stop_reason.
Proof.
  intros Hgen Hi Hcfg evs T Hdone Hocc Hfirst.
  destruct (generate_projection _ _ _ _ _ _ _ _ Hgen Hi Hcfg)
    as (r & reason & Hrun & Hout).
  fold evs in Hrun. unfold final_reason in *. rewrite Hrun in *.
  apply (phase_run _ _ _ _ _ _ (phase_new cfg)) in Hrun as [Hp Hh].
  simpl in Hh. subst T. rewrite <- Hh in Hocc, Hfirst |- *.
  destruct (phase_truncated _ _ _ k s Hp) as [Ho Hr]; try done.
  - by destruct reason.
  - by rewrite Hout, Ho.
Qed.


End Generate.

Arguments since {EState} w w'.

(** ** The model at work *)

Lemma hold_last_stable (h ext : list Z) :
  take (hold_last h) (char_decode (h ++ ext)) =
  take (hold_last h) (char_decode h).
Proof.
  unfold char_decode, hold_last. rewrite map_app.
  apply take_app_le. rewrite length_map. lia.
Qed.

Lemma hold_last_mono (h ext : list Z) :
  (hold_last h <= hold_last (h ++ ext))%nat.
Proof. unfold hold_last. rewrite length_app. lia. Qed.

(** [int] at the edges of what it reads: blanks around the digits, a
    sign, single underscores, white space and digits beyond ASCII, as
    many digits as the limit allows; and of what it rejects: the
    separator U+001C, a sign apart from its digits, a doubled underscore,
    one digit more than the limit. *)
Lemma py_int_reads :
  py_int (txt " +1_2 ") = Some 12 /\
  py_int [0xA0; 0x2D; 0x661; 0x662; 0x3000]%N = Some (-12) /\
  py_int (replicate 4300 (chr "0")) = Some 0 /\
  py_int (0x1C%N :: txt "5") = None /\
  py_int (txt "- 1") = None /\
  py_int (txt "1__2") = None /\
  py_int (replicate 4301 (chr "0")) = None.
Proof. vm_compute. repeat split. Qed.

Lemma callback_restored_witness :
  clean_exit
    (generate char_decode hold_last Script script_add_request script_step
       hello_prompts (OneConfig (stops ["!"%string])) 5
       (host_world hello_script)).1 /\
  callback
    (generate char_decode hold_last Script script_add_request script_step
       hello_prompts (OneConfig (stops ["!"%string])) 5
       (host_world hello_script)).2 = HostCallback 7.
Proof.
  split; [exact I|].
  apply (callback_restored_on_clean_exit char_decode hold_last Script
           script_add_request script_step hello_prompts
           (OneConfig (stops ["!"%string])) 5 (host_world hello_script)
           (Returned [txt "Hello"; txt "World."])).
  - vm_compute. reflexivity.
  - exact I.
Defined.

Lemma callback_left_installed_on_fault :
  (generate char_decode hold_last Script script_add_request script_step
     (VStr (txt "Hi")) (OneConfig (stops [])) 5
     (host_world failing_script)).1 = Raised (EngineError 3) /\
  callback
    (generate char_decode hold_last Script script_add_request script_step
       (VStr (txt "Hi")) (OneConfig (stops [])) 5
       (host_world failing_script)).2 = GenerateCallback /\
  callback
    (generate char_decode hold_last Script script_add_request script_step
       (VStr (txt "Hi")) (OneConfig (stops [])) 5
       (host_world failing_script)).2 <>
  callback (host_world failing_script).
Proof. vm_compute. repeat split; discriminate. Qed.

Lemma config_mismatch_witness :
  promoted hello_prompts <> [] /\
  length [stops []; stops []; stops []] <> length (promoted hello_prompts) /\
  generate char_decode hold_last Script script_add_request script_step
    hello_prompts (ConfigList [stops []; stops []; stops []]) 5
    (host_world hello_script) =
  (Raised (AssertionError config_assertion), host_world hello_script).
Proof.
  split; [discriminate|]. split; [discriminate|].
  apply (config_mismatch_faults_first char_decode hold_last Script
           script_add_request script_step hello_prompts
           [stops []; stops []; stops []] 5 (host_world hello_script));
    discriminate.
Defined.

Lemma config_mismatch_unnoticed_on_empty_prompts :
  length [stops []] <> length (promoted (VList [])) /\
  generate char_decode hold_last Script script_add_request script_step
    (VList []) (ConfigList [stops []]) 5 (host_world hello_script) =
  (Returned [], host_world hello_script).
Proof. split; [discriminate|reflexivity]. Qed.

Lemma promotion_witness :
  single_prompt (VList [VInt 104; VInt 105]) = true /\
  length
    (added_requests
       (since (host_world plain_script)
          (generate char_decode hold_last Script script_add_request
             script_step (VList [VInt 104; VInt 105]) (OneConfig (stops []))
             5 (host_world plain_script)).2)) =
  length (promoted (VList [VInt 104; VInt 105])).
Proof.
  split; [reflexivity|].
  refine (proj1 (proj2
    (promotion_to_single_batch char_decode hold_last Script
       script_add_request script_step
       (VList [VInt 104; VInt 105]) (OneConfig (stops [])) 5
       (host_world plain_script) [txt "abc"] _ _))).
  vm_compute. reflexivity.
Defined.

Lemma out_of_range_witness :
  py_int (rso_request_id (event "5" "x" None)) = Some 5 /\
  request_stream_callback char_decode hold_last
    (fresh_batch [stops ["!"%string]])
    ([event "0" "ab" None] ++ event "5" "x" None :: [event "0" "c" None]) =
  ((request_stream_callback char_decode hold_last
      (fresh_batch [stops ["!"%string]]) [event "0" "ab" None]).1,
   Some IndexError).
Proof.
  split; [reflexivity|].
  apply (out_of_range_event_rejected char_decode hold_last 1
           (fresh_batch [stops ["!"%string]]) [event "0" "ab" None]
           (event "5" "x" None) [event "0" "c" None] _ 5).
  - repeat split.
  - reflexivity.
  - reflexivity.
  - left. discriminate.
Defined.

Lemma negative_id_is_routed :
  py_int (rso_request_id (event "-1" "ab" None)) = Some (-1) /\
  (request_stream_callback char_decode hold_last
     (fresh_batch [stops ["!"%string]]) negative_events).2 = None /\
  outputs
    (request_stream_callback char_decode hold_last
       (fresh_batch [stops ["!"%string]]) negative_events).1 = [txt "a"].
Proof. vm_compute. repeat split. Qed.

Lemma results_in_prompt_order_witness :
  length
    (promoted hello_prompts) = 2%nat /\
  exists r reason,
    request_run char_decode hold_last (new_request (stops ["!"%string])) None
      (events_for 2 1 hello_events) = Some (r, reason) /\
    [txt "Hello"; txt "World."] !! 1%nat = Some (rq_output r).
Proof.
  split; [reflexivity|].
  refine (proj2
    (results_in_prompt_order char_decode hold_last Script
       script_add_request script_step hello_prompts
       (OneConfig (stops ["!"%string])) 5 (host_world hello_script)
       [txt "Hello"; txt "World."]
       (generate char_decode hold_last Script script_add_request
          script_step hello_prompts (OneConfig (stops ["!"%string])) 5
          (host_world hello_script)).2 _) 1%nat (stops ["!"%string]) _ _).
  - vm_compute. reflexivity.
  - vm_compute. lia.
  - reflexivity.
Defined.

Lemma event_after_finish_witness :
  request_stream_callback char_decode hold_last
    (fresh_batch [stops ["!"%string]])
    ([event "0" "ab" (Some "length"%string)] ++ event "0" "c" None :: []) =
  ((request_stream_callback char_decode hold_last
      (fresh_batch [stops ["!"%string]])
      [event "0" "ab" (Some "length"%string)]).1,
   Some StreamClosed).
Proof.
  apply (event_after_finish_rejected char_decode hold_last 1
           (fresh_batch [stops ["!"%string]])
           [event "0" "ab" (Some "length"%string)] (event "0" "c" None) []
           _ 0%nat
           {| rq_output := txt "ab";
              rq_streamer := {| ts_history := toks "ab"; ts_cursor := 2;
                                ts_closed := true |};
              rq_handler := {| sh_stop_strs := [txt "!"]; sh_buffer := [];
                               stop_triggered := false;
                               sh_finished := true |} |}).
  - repeat split.
  - reflexivity.
  - reflexivity.
  - vm_compute. reflexivity.
  - reflexivity.
Defined.

Lemma event_after_stop_is_processed :
  done_at
    (request_stream_callback char_decode hold_last
       (fresh_batch [stops ["!"%string]]) [event "0" "a!x" None]).1 0 = true /\
  (handle_delta_output char_decode hold_last
     (request_stream_callback char_decode hold_last
        (fresh_batch [stops ["!"%string]]) [event "0" "a!x" None]).1
     (event "0" "y" None)).2 = inr (Some stop_reason).
Proof. vm_compute. split; reflexivity. Qed.

Lemma termination_accounting_witness :
  only_live char_decode hold_last
    (fresh_batch [stops ["!"%string]; stops ["!"%string]]) hello_events
  = true /\
  num_finished_requests
    (request_stream_callback char_decode hold_last
       (fresh_batch [stops ["!"%string]; stops ["!"%string]])
       hello_events).1 =
  done_count
    (request_stream_callback char_decode hold_last
       (fresh_batch [stops ["!"%string]; stops ["!"%string]])
       hello_events).1 /\
  (num_finished_requests
     (request_stream_callback char_decode hold_last
        (fresh_batch [stops ["!"%string]; stops ["!"%string]])
        hello_events).1 <= 2)%nat.
Proof.
  split; [reflexivity|].
  refine (proj1 (proj2
    (termination_accounting char_decode hold_last Script script_step 2
       (fresh_batch [stops ["!"%string]; stops ["!"%string]]) hello_events
       _ None 0 (host_world []) _ _)) eq_refl _ _).
  - repeat split.
  - reflexivity.
  - reflexivity.
  - reflexivity.
Defined.

Lemma finished_count_exceeds_batch :
  (request_stream_callback char_decode hold_last
     (fresh_batch [stops ["!"%string]]) talkative_events).2 = None /\
  num_finished_requests
    (request_stream_callback char_decode hold_last
       (fresh_batch [stops ["!"%string]]) talkative_events).1 = 2%nat /\
  length
    (outputs
       (request_stream_callback char_decode hold_last
          (fresh_batch [stops ["!"%string]]) talkative_events).1) = 1%nat /\
  (generate char_decode hold_last Script script_add_request script_step
     (VList [VStr (txt "A"); VStr (txt "B")])
     (OneConfig (stops ["!"%string])) 5 (host_world talkative_script)).1 =
  Returned [txt "a"; []].
Proof. vm_compute. repeat split. Qed.

Lemma stop_truncation_witness :
  occurs_at [txt "!"] (txt "Hello!!!") 5 (txt "!") /\
  [txt "Hello"; txt "World."] !! 0%nat = Some (take 5 (txt "Hello!!!")) /\
  final_reason char_decode hold_last (stops ["!"%string])
    (events_for 2 0 hello_events) = Some stop_reason.
Proof.
  assert (occurs_at [txt "!"] (txt "Hello!!!") 5 (txt "!")) as Hocc.
  { split; [left; reflexivity|]. split; [vm_compute; lia|reflexivity]. }
  split; [exact Hocc|].
  refine (stop_truncation char_decode hold_last Script script_add_request
            script_step hold_last_stable hold_last_mono hello_prompts
            (OneConfig (stops ["!"%string])) 5 (host_world hello_script)
            [txt "Hello"; txt "World."]
            (generate char_decode hold_last Script script_add_request
               script_step hello_prompts (OneConfig (stops ["!"%string])) 5
               (host_world hello_script)).2
            0%nat (stops ["!"%string]) 5%nat (txt "!") _ _ _ _ _ _).
  - vm_compute. reflexivity.
  - vm_compute. lia.
  - reflexivity.
  - vm_compute. discriminate.
  - exact Hocc.
  - intros k' s' (Hin & Hl & Ht).
    destruct Hin as [<-|[]].
    do 5 (destruct k' as [|k']; [vm_compute in Ht; discriminate|]).
    split; lia.
Defined.

Lemma overlapping_stop_strings_cut_late :
  (generate char_decode hold_last Script script_add_request script_step
     (VStr (txt "p")) (OneConfig overlap_stops) 5
     (host_world overlap_script)).1 = Returned [txt "a"] /\
  first_occurrence (stop_strs overlap_stops) (char_decode (toks "abcd")) 0 /\
  [txt "a"] !! 0%nat <> Some (take 0 (char_decode (toks "abcd"))).
Proof.
  split; [vm_compute; reflexivity|]. split; [|discriminate].
  split.
  - exists (txt "abcd").
    split; [left; reflexivity|]. split; [vm_compute; lia|reflexivity].
  - intros k' s' _. lia.
Qed.


(** ** Properties of the construction arguments *)

Section ModelArgsProperties.

Variable _get_model_path : string -> PyError + (string * string).
Variable _get_chat_config : string -> PyError + ChatConfig.
Variable _get_lib_module_path :
  string -> string -> ChatConfig -> string -> string -> string ->
  PyError + string.
Variable MASK2STR : Z -> string.
Variable jit : string -> ChatConfig -> Device -> PyError + string.

Local Abbreviation resolve :=
  (resolve_model_lib _get_lib_module_path MASK2STR jit).
Local Abbreviation convert :=
  (_convert_model_info _get_model_path _get_chat_config
     _get_lib_module_path MASK2STR jit).
Local Abbreviation convert_all :=
  (convert_models _get_model_path _get_chat_config
     _get_lib_module_path MASK2STR jit).
Local Abbreviation process :=
  (_process_model_args _get_model_path _get_chat_config
     _get_lib_module_path MASK2STR jit).
Local Abbreviation files := (model_files _get_model_path _get_chat_config).
Local Abbreviation path := (path_of _get_model_path _get_chat_config).
Local Abbreviation window := (window_of _get_model_path _get_chat_config).
Local Abbreviation template := (template_of _get_model_path _get_chat_config).

Lemma convert_inv m st args st' :
  convert m st = inr (args, st') ->
  exists model_path chat_config lib,
    files m = Some (model_path, chat_config) /\
    (exists config_file_path,
       _get_model_path (model m) = inr (model_path, config_file_path) /\
       resolve m model_path config_file_path chat_config = inr lib) /\
    args = [ArgStr lib; ArgStr model_path;
            ArgInt (device_type (device m)); ArgInt (device_id (device m))] /\
    max_single_sequence_length st' =
      match context_window_size chat_config with
      | Some c => if c =? 0 then max_single_sequence_length st
                  else Z.min (max_single_sequence_length st) c
      | None => max_single_sequence_length st
      end /\
    tokenizer_path st' =
      match tokenizer_path st with
      | None => Some model_path
      | Some p => Some p
      end /\
    conv_template_name st' =
      match conv_template_name st with
      | None => conv_template chat_config
      | Some t => Some t
      end.
Proof.
  unfold _convert_model_info, model_files.
  destruct (_get_model_path (model m)) as [e|[model_path cf]]; [done|].
  destruct (_get_chat_config cf) as [e|cc]; [done|].
  destruct (resolve_model_lib _ _ _ m model_path cf cc) as [e|lib] eqn:El;
    [done|].
  intros [= <- <-]. exists model_path, cc, lib. simpl.
  split; [done|]. split; [by exists cf|]. done.
Qed.



Lemma convert_window m st args st' :
  convert m st = inr (args, st') ->
  max_single_sequence_length st' =
    match window m with
    | Some c => Z.min (max_single_sequence_length st) c
    | None => max_single_sequence_length st
    end /\
  tokenizer_path st' =
    match tokenizer_path st with None => path m | Some p => Some p end /\
  conv_template_name st' =
    match conv_template_name st with
    | None => template m
    | Some t => Some t
    end.
Proof.
  intros H. apply convert_inv in H
    as (mp & cc & lib & Hf & _ & _ & Hmax & Htok & Hconv).
  unfold window_of, path_of, template_of. rewrite Hf. simpl.
  split; [|done]. rewrite Hmax.
  destruct (context_window_size cc) as [c|]; [|done].
  by destruct (c =? 0).
Qed.

Lemma convert_all_state l : forall acc st args st',
  convert_all l acc st = inr (args, st') ->
  (max_single_sequence_length st' <= max_single_sequence_length st /\
   (forall m c, In m l -> window m = Some c ->
                max_single_sequence_length st' <= c) /\
   (max_single_sequence_length st' = max_single_sequence_length st \/
    exists m, In m l /\ window m = Some (max_single_sequence_length st'))) /\
  tokenizer_path st' =
    match tokenizer_path st with
    | None => first_some (map path l)
    | Some p => Some p
    end /\
  conv_template_name st' =
    match conv_template_name st with
    | None => first_some (map template l)
    | Some t => Some t
    end.
Proof.
  induction l as [|m l IH]; intros acc st args st'; simpl.
  - intros [= _ <-]. split; [split; [lia|split; [done|by left]]|].
    split; [by destruct (tokenizer_path st)
           |by destruct (conv_template_name st)].
  - destruct (convert m st) as [e|[args1 st1]] eqn:Ec; [done|].
    intros H. apply IH in H as ((Hle & Hall & Hex) & Htok & Hconv).
    apply convert_window in Ec as (Hmax1 & Htok1 & Hconv1).
    split; [|split].
    + assert (max_single_sequence_length st1 <=
              max_single_sequence_length st) as Hle1
        by (rewrite Hmax1; destruct (window m); lia).
      split; [lia|]. split.
      * intros m' c [<-|Hin] Hw; [|by eapply Hall].
        rewrite Hw in Hmax1. lia.
      * destruct Hex as [Heq|(m' & Hin & Hw)]; [|by eauto 6].
        destruct (window m) as [c|] eqn:Ew; [|left; lia].
        destruct (Z.min_spec (max_single_sequence_length st) c)
          as [[_ Hm]|[_ Hm]]; [left; lia|].
        right. exists m. split; [by left|]. rewrite Ew. f_equal. lia.
    + rewrite Htok, Htok1. destruct (tokenizer_path st); [done|].
      by destruct (path m).
    + rewrite Hconv, Hconv1. destruct (conv_template_name st); [done|].
      by destruct (template m).
Qed.

Lemma process_list_state l args tok maxlen conv :
  process (ModelList l) = inr (args, tok, maxlen, conv) ->
  exists st',
    convert_all l []
      {| max_single_sequence_length := 1000000000; tokenizer_path := None;
         conv_template_name := None |} = inr (args, st') /\
    tok = tokenizer_path st' /\ maxlen = max_single_sequence_length st' /\
    conv = conv_template_name st'.
Proof.
  unfold _process_model_args.
  destruct (convert_models _ _ _ _ _ l [] _) as [e|[args' st']] eqn:E;
    [done|].
  intros [= <- <- <- <-]. by exists st'.
Qed.

(** X14: [max_single_sequence_length] is the smallest of 10^9 and the
    context windows of the models whose config gives one that counts as
    true: it is at most 10^9, at most each such window, and equal to one
    of them. *)
Theorem max_length_is_smallest_window l args tok maxlen conv :
  _process_model_args _get_model_path _get_chat_config
    _get_lib_module_path MASK2STR jit (ModelList l)
  = inr (args, tok, maxlen, conv) ->
  maxlen <= 1000000000 /\
  (forall m c,
     In m l -> window_of _get_model_path _get_chat_config m = Some c ->
     maxlen <= c) /\
  (maxlen = 1000000000 \/
   exists m,
     In m l /\ window_of _get_model_path _get_chat_config m = Some maxlen).
Proof.
  intros (st' & E & _ & -> & _)%process_list_state.
  by apply convert_all_state in E as (H & _).
Qed.

(** X15: the tokenizer is taken from the directory of the first model;
    without models there is none. *)
Theorem tokenizer_of_first_model l args tok maxlen conv :
  _process_model_args _get_model_path _get_chat_config
    _get_lib_module_path MASK2STR jit (ModelList l)
  = inr (args, tok, maxlen, conv) ->
  tok = head l ≫= path_of _get_model_path _get_chat_config /\
  (tok = None <-> l = []).
Proof.
  intros H. pose proof H as (st' & E & -> & _ & _)%process_list_state.
  pose proof E as (_ & Htok & _)%convert_all_state. simpl in Htok.
  destruct l as [|m l]; [done|]. simpl in *.
  destruct (convert m _) as [e|[args1 st1]] eqn:Ec; [done|].
  apply convert_inv in Ec as (mp & cc & lib & Hf & _).
  unfold path_of in *. rewrite Hf in *. simpl in *. rewrite Htok.
  split; [done|]. split; done.
Qed.

(** X16: the conversation template is that of the first model, in list
    order, whose config names one. *)
Theorem template_of_first_model_with_one l args tok maxlen conv :
  _process_model_args _get_model_path _get_chat_config
    _get_lib_module_path MASK2STR jit (ModelList l)
  = inr (args, tok, maxlen, conv) ->
  conv = first_some (map (template_of _get_model_path _get_chat_config) l).
Proof.
  intros (st' & E & _ & _ & ->)%process_list_state.
  by apply convert_all_state in E as (_ & _ & Hconv).
Qed.

(** X17: passing one [ModelInfo] is the same as passing the list that
    holds just that one. *)
Theorem one_model_is_singleton_list m :
  _process_model_args _get_model_path _get_chat_config
    _get_lib_module_path MASK2STR jit (OneModel m) =
  _process_model_args _get_model_path _get_chat_config
    _get_lib_module_path MASK2STR jit (ModelList [m]).
Proof.
  unfold _process_model_args. simpl.
  by destruct (convert m _) as [e|[args st]].
Qed.



End ModelArgsProperties.


Lemma max_length_witness :
  2048 <= 1000000000 /\
  (2048 = 1000000000 \/
   exists m, In m [big_model; small_model] /\
             window_of demo_get_model_path demo_get_chat_config m =
             Some 2048).
Proof.
  destruct (max_length_is_smallest_window demo_get_model_path
              demo_get_chat_config demo_get_lib_module_path demo_mask2str
              demo_jit [big_model; small_model] demo_model_args
              (Some "big"%string) 2048 (Some "llama-2"%string) eq_refl)
    as (H1 & _ & H3).
  split; [exact H1|exact H3].
Defined.

Lemma tokenizer_witness :
  Some "big"%string =
  head [big_model; small_model]
    ≫= path_of demo_get_model_path demo_get_chat_config.
Proof.
  exact (proj1 (tokenizer_of_first_model demo_get_model_path
           demo_get_chat_config demo_get_lib_module_path demo_mask2str
           demo_jit [big_model; small_model] demo_model_args
           (Some "big"%string) 2048 (Some "llama-2"%string) eq_refl)).
Defined.

Lemma template_witness :
  Some "llama-2"%string =
  first_some
    (map (template_of demo_get_model_path demo_get_chat_config)
       [small_model; big_model]).
Proof.
  exact (template_of_first_model_with_one demo_get_model_path
           demo_get_chat_config demo_get_lib_module_path demo_mask2str
           demo_jit [small_model; big_model]
           [ArgStr "small.jit.so"; ArgStr "small"; ArgInt 2; ArgInt 1;
            ArgStr "big.so"; ArgStr "big"; ArgInt 2; ArgInt 0]
           (Some "small"%string) 2048 (Some "llama-2"%string) eq_refl).
Defined.


Lemma requests_follow_prompts_witness :
  added_requests
    (since (host_world hello_script)
       (generate char_decode hold_last Script script_add_request script_step
          hello_prompts (OneConfig (stops ["!"%string])) 5
          (host_world hello_script)).2) !! 1%nat =
  Some {| request_id := py_str 1; inputs := TextData (txt "World");
          generation_config := stops ["!"%string] |}.
Proof.
  refine (requests_follow_prompts char_decode hold_last Script
            script_add_request script_step hello_prompts
            (OneConfig (stops ["!"%string])) 5 (host_world hello_script)
            [txt "Hello"; txt "World."] _ 1%nat (VStr (txt "World"))
            (stops ["!"%string]) _ _ _).
  - vm_compute. reflexivity.
  - reflexivity.
  - reflexivity.
Defined.

Lemma request_id_round_trip_witness :
  route (length (promoted hello_prompts)) (event "1" "x" None) = Some 1%nat.
Proof.
  refine (request_id_round_trip char_decode hold_last Script
            script_add_request script_step hello_prompts
            (OneConfig (stops ["!"%string])) 5 (host_world hello_script)
            [txt "Hello"; txt "World."]
            (generate char_decode hold_last Script script_add_request
               script_step hello_prompts (OneConfig (stops ["!"%string])) 5
               (host_world hello_script)).2
            1%nat (request_for 1 (VStr (txt "World")) (stops ["!"%string]))
            (event "1" "x" None) _ _ _).
  - vm_compute. reflexivity.
  - vm_compute. reflexivity.
  - vm_compute. reflexivity.
Defined.

Lemma shared_config_witness :
  Forall (λ r, generation_config r = stops ["!"%string])
    (added_requests
       (since (host_world hello_script)
          (generate char_decode hold_last Script script_add_request
             script_step hello_prompts (OneConfig (stops ["!"%string])) 5
             (host_world hello_script)).2)).
Proof.
  refine (shared_config_reaches_every_request char_decode hold_last Script
            script_add_request script_step hello_prompts
            (stops ["!"%string]) 5 (host_world hello_script)
            [txt "Hello"; txt "World."] _ _).
  vm_compute. reflexivity.
Defined.

Lemma no_step_before_all_submitted_witness :
  length
    (added_requests
       (take 4
          (since (host_world hello_script)
             (generate char_decode hold_last Script script_add_request
                script_step hello_prompts (OneConfig (stops ["!"%string])) 5
                (host_world hello_script)).2))) = 2%nat /\
  added_requests
    (drop 5
       (since (host_world hello_script)
          (generate char_decode hold_last Script script_add_request
             script_step hello_prompts (OneConfig (stops ["!"%string])) 5
             (host_world hello_script)).2)) = [].
Proof.
  destruct (no_step_before_all_submitted char_decode hold_last Script
              script_add_request script_step hello_prompts
              (OneConfig (stops ["!"%string])) 5 (host_world hello_script)
              (take 4
                 (since (host_world hello_script)
                    (generate char_decode hold_last Script
                       script_add_request script_step hello_prompts
                       (OneConfig (stops ["!"%string])) 5
                       (host_world hello_script)).2))
              (drop 5
                 (since (host_world hello_script)
                    (generate char_decode hold_last Script
                       script_add_request script_step hello_prompts
                       (OneConfig (stops ["!"%string])) 5
                       (host_world hello_script)).2)))
    as [H1 H2].
  - vm_compute. reflexivity.
  - split; [|exact H2]. rewrite H1. reflexivity.
Defined.

Lemma returning_call_protocol_witness :
  exists tr,
    since (host_world plain_script)
      (generate char_decode hold_last Script script_add_request script_step
         (VStr (txt "Hi")) (OneConfig (stops [])) 5
         (host_world plain_script)).2 =
      [GetCallback; SetCallback GenerateCallback] ++
      map AddRequest
        (requests_from 0
           (zip (promoted (VStr (txt "Hi")))
              (configs_of (VStr (txt "Hi")) (OneConfig (stops []))))) ++
      Step :: tr ++ [SetCallback (HostCallback 7)] /\
    Forall (λ x, is_step_or_deliver x = true) tr.
Proof.
  refine (returning_call_protocol char_decode hold_last Script
            script_add_request script_step (VStr (txt "Hi"))
            (OneConfig (stops [])) 5 (host_world plain_script)
            [txt "abc"] _ _ _).
  - discriminate.
  - vm_compute. reflexivity.
Defined.

Lemma assertion_witness :
  (generate char_decode hold_last Script script_add_request script_step
     hello_prompts (ConfigList [stops []]) 5 (host_world hello_script)).2 =
  host_world hello_script /\
  (config_assertion = prompts_assertion \/
   config_assertion = config_assertion).
Proof.
  refine (assertion_means_untouched_engine char_decode hold_last Script
            script_add_request script_step hello_prompts
            (ConfigList [stops []]) 5 (host_world hello_script)
            config_assertion _ _).
  vm_compute. reflexivity.
Defined.

Lemma callback_stays_installed_witness :
  callback
    (generate char_decode hold_last Script script_add_request script_step
       (VStr (txt "Hi")) (OneConfig (stops [])) 5
       (host_world failing_script)).2 = GenerateCallback.
Proof.
  refine (callback_stays_installed_otherwise char_decode hold_last Script
            script_add_request script_step (VStr (txt "Hi"))
            (OneConfig (stops [])) 5 (host_world failing_script)
            (Raised (EngineError 3)) _ _ _).
  - vm_compute. reflexivity.
  - intros H. exact H.
Defined.

Lemma event_touches_one_request_witness :
  request_at
    (handle_delta_output char_decode hold_last
       (fresh_batch [stops ["!"%string]; stops ["!"%string]])
       (event "0" "ab" None)).1 1 =
  request_at (fresh_batch [stops ["!"%string]; stops ["!"%string]]) 1.
Proof.
  refine (proj1 (event_touches_one_request char_decode hold_last 2
            (fresh_batch [stops ["!"%string]; stops ["!"%string]])
            (event "0" "ab" None) 1%nat _ _)).
  - repeat split.
  - vm_compute. discriminate.
Defined.

Lemma outputs_only_grow_witness :
  exists delta,
    outputs
      (request_stream_callback char_decode hold_last
         (fresh_batch [stops ["!"%string]; stops ["!"%string]])
         hello_events).1 !! 0%nat = Some ([] ++ delta).
Proof.
  refine (outputs_only_grow char_decode hold_last 2 hello_events
            (fresh_batch [stops ["!"%string]; stops ["!"%string]])
            0%nat [] _ _).
  - repeat split.
  - reflexivity.
Defined.

Lemma malformed_id_witness :
  request_stream_callback char_decode hold_last
    (fresh_batch [stops ["!"%string]])
    ([event "0" "ab" None] ++ event "zero" "c" None :: [event "0" "d" None])
  = ((request_stream_callback char_decode hold_last
        (fresh_batch [stops ["!"%string]]) [event "0" "ab" None]).1,
     Some ValueError).
Proof.
  refine (malformed_id_rejected char_decode hold_last
            (fresh_batch [stops ["!"%string]]) [event "0" "ab" None]
            (event "zero" "c" None) [event "0" "d" None] _ _ _).
  - reflexivity.
  - reflexivity.
Defined.

Lemma negative_id_aliases_witness :
  handle_delta_output char_decode hold_last
    (fresh_batch [stops ["!"%string]; stops ["!"%string]])
    (event "-1" "ab" None) =
  handle_delta_output char_decode hold_last
    (fresh_batch [stops ["!"%string]; stops ["!"%string]])
    {| rso_request_id := txt "1"; rso_delta_tokens := toks "ab";
       rso_finish_reason := None |}.
Proof.
  refine (negative_id_aliases char_decode hold_last 2
            (fresh_batch [stops ["!"%string]; stops ["!"%string]])
            (event "-1" "ab" None)
            {| rso_request_id := txt "1"; rso_delta_tokens := toks "ab";
               rso_finish_reason := None |} (-1) _ _ _ _ _ _).
  - repeat split.
  - reflexivity.
  - vm_compute. split; [discriminate|reflexivity].
  - reflexivity.
  - reflexivity.
  - reflexivity.
Defined.
